(** * openAI.ts: natural language to SQL / email-SMS bridge

    A shallow embedding of
    [samples/openai-acs-msgraph/server/typescript/openAI.ts] and the
    properties of its JSON extractor, its SQL safety filter, its completion
    clients and its two public flows [getSQL] and [completeEmailSMSMessages].

    Modelling conventions.
    - A JavaScript string is a Rocq [string]: a sequence of code units below
      256.  [toLowerCase] and [trim] are the ECMAScript operations restricted
      to that alphabet.
    - A value produced by [JSON.parse] is a [json]; a JavaScript object is the
      list of its own properties in insertion order.  A [\u] escape can
      write a code unit above 00FF into a string of a parsed reply: such a
      string is kept as the list of its UTF-16 code units.
    - A function that can throw returns an [outcome]; a function that also
      writes to the console returns an [IO], the outcome paired with the
      lines written.
    - The file system, the environment variables and the two HTTP services
      are the fields of a [World] the functions read from. *)

From Stdlib Require Import String Ascii List Bool Arith Lia ZArith NArith DecimalString.
From Stdlib Require QArith.
Import ListNotations.
Local Open Scope list_scope.
Local Open Scope string_scope.
Local Open Scope nat_scope.

Set Implicit Arguments.
Set Warnings "-register-all,-uniform-inheritance".

(** ** Strings *)

Module Str.

Definition is_empty (s : string) : bool :=
  match s with EmptyString => true | String _ _ => false end.

(** Truthiness of a string value: [!!s]. *)
Definition truthy (s : string) : bool := negb (is_empty s).

(** [s.startsWith(p)] *)
Definition startsWith (s p : string) : bool := String.prefix p s.

(** [s.includes(k)] : [k] occurs in [s] at some index. *)
Fixpoint includes (s k : string) : bool :=
  String.prefix k s ||
  match s with
  | EmptyString => false
  | String _ s' => includes s' k
  end.

Fixpoint last_char (s : string) : option ascii :=
  match s with
  | EmptyString => None
  | String c EmptyString => Some c
  | String _ s' => last_char s'
  end.

(** [s.endsWith(c)] for a one-character [c]. *)
Definition endsWithChar (s : string) (c : ascii) : bool :=
  match last_char s with
  | Some d => Ascii.eqb d c
  | None => false
  end.

(** ECMAScript WhiteSpace and LineTerminator code units below 256:
    TAB, LF, VT, FF, CR, SP and NBSP. *)
Definition is_space (c : ascii) : bool :=
  let n := nat_of_ascii c in
  ((9 <=? n) && (n <=? 13)) || (n =? 32) || (n =? 160).

Fixpoint trimStart (s : string) : string :=
  match s with
  | EmptyString => EmptyString
  | String c s' => if is_space c then trimStart s' else s
  end.

Fixpoint trimEnd (s : string) : string :=
  match s with
  | EmptyString => EmptyString
  | String c s' =>
      match trimEnd s' with
      | EmptyString => if is_space c then EmptyString else String c EmptyString
      | t => String c t
      end
  end.

(** [s.trim()] *)
Definition trim (s : string) : string := trimEnd (trimStart s).

(** Lower-case mapping of one code unit below 256: A-Z, and the Latin-1
    capitals U+00C0-U+00DE except the multiplication sign U+00D7. *)
Definition lower_char (c : ascii) : ascii :=
  let n := nat_of_ascii c in
  if ((65 <=? n) && (n <=? 90))
     || ((192 <=? n) && (n <=? 222) && negb (n =? 215))
  then ascii_of_nat (n + 32) else c.

(** [s.toLowerCase()] *)
Fixpoint toLowerCase (s : string) : string :=
  match s with
  | EmptyString => EmptyString
  | String c s' => String (lower_char c) (toLowerCase s')
  end.

(** The first [n] code units of [s]. *)
Fixpoint take (n : nat) (s : string) : string :=
  match n, s with
  | S n', String c s' => String c (take n' s')
  | _, _ => EmptyString
  end.

(** [s] without its first [n] code units. *)
Fixpoint drop (n : nat) (s : string) : string :=
  match n, s with
  | S n', String _ s' => drop n' s'
  | _, _ => s
  end.

(** [join_lines [l1; ...; ln]] is the lines separated by line feeds. *)
Fixpoint join_lines (ls : list string) : string :=
  match ls with
  | [] => EmptyString
  | [l] => l
  | l :: ls' => l ++ String (ascii_of_nat 10) (join_lines ls')
  end.

(** Writes a text with apostrophes where its double quotes go. *)
Fixpoint quotes (s : string) : string :=
  match s with
  | EmptyString => EmptyString
  | String c s' =>
      String (if Ascii.eqb c "'" then ascii_of_nat 34 else c) (quotes s')
  end.

End Str.

(** ** Regular expressions, matched by backtracking

    The fragment of ECMAScript patterns that [extractJson] uses.  [rmatch r s
    k] follows the continuation-passing matcher of the language
    specification: it matches [r] at the front of [s] and hands the rest of
    the input to [k]; the first success in priority order (left alternative
    first, greedy repetition) is the answer.  The answer is the input left
    after the whole match. *)

Module Regex.

Inductive pattern : Type :=
| Chr (c : ascii)                 (* a literal character *)
| NoneOf (cs : list ascii)        (* a negated class [^...] *)
| Cat (r1 r2 : pattern)             (* concatenation *)
| Or (r1 r2 : pattern)              (* r1|r2 *)
| Star (r : pattern).               (* (?:r)*, greedy *)

Definition or_else {A} (x y : option A) : option A :=
  match x with Some _ => x | None => y end.

Definition matcher : Type := string -> (string -> option string) -> option string.

(** The loop of a greedy repetition whose body is matched by [m]: one more
    iteration when it consumes input, and when that fails the loop is left.
    An iteration that consumes input shortens it, so [fuel] at least the
    length of the input never runs out. *)
Fixpoint star_loop (m : matcher) (k : string -> option string)
         (fuel : nat) (s : string) {struct fuel} : option string :=
  match fuel with
  | O => k s
  | S fuel' =>
      or_else
        (m s (fun s' =>
                if String.length s' <? String.length s
                then star_loop m k fuel' s' else None))
        (k s)
  end.

Fixpoint rmatch (r : pattern) (s : string) (k : string -> option string)
  {struct r} : option string :=
  match r with
  | Chr c =>
      match s with
      | String a s' => if Ascii.eqb a c then k s' else None
      | EmptyString => None
      end
  | NoneOf cs =>
      match s with
      | String a s' => if existsb (Ascii.eqb a) cs then None else k s'
      | EmptyString => None
      end
  | Cat r1 r2 => rmatch r1 s (fun s1 => rmatch r2 s1 k)
  | Or r1 r2 => or_else (rmatch r1 s k) (rmatch r2 s k)
  | Star r1 => star_loop (rmatch r1) k (String.length s) s
  end.

(** The first match of [r] in [s], scanning start positions from the left:
    [s.match(r)[0]] for a global pattern, [None] when [s.match(r)] is
    [null]. *)
Fixpoint first_match (r : pattern) (s : string) : option string :=
  match rmatch r s Some with
  | Some rest => Some (Str.take (String.length s - String.length rest) s)
  | None =>
      match s with
      | EmptyString => None
      | String _ s' => first_match r s'
      end
  end.

End Regex.

Import Regex.

(** ** extractJson *)

Definition lbrace : ascii := "{"%char.
Definition rbrace : ascii := "}"%char.

(** [[^{}]] *)
Definition not_brace : pattern := NoneOf [lbrace; rbrace].

(** [{[^{}]*}] *)
Definition group_pattern : pattern :=
  Cat (Chr lbrace) (Cat (Star not_brace) (Chr rbrace)).

(** [[^{}]|{[^{}]*}] *)
Definition piece_pattern : pattern := Or not_brace group_pattern.

(** [/\{(?:[^{}]|{[^{}]*})*\}/g] *)
Definition regex : pattern :=
  Cat (Chr lbrace) (Cat (Star piece_pattern) (Chr rbrace)).

(** [content.match(regex)], then [match[0]] or [''] *)
Definition extractJson (content : string) : string :=
  match first_match regex content with
  | Some m => m
  | None => ""
  end.

(** *** What the extractor is specified to return

    A one-level object text is an opening brace, then pieces, then a closing
    brace, where a piece is one character other than a brace or one complete
    group: a brace pair around characters that are not braces. *)

Definition is_brace (c : ascii) : bool :=
  Ascii.eqb c lbrace || Ascii.eqb c rbrace.

Fixpoint brace_free (s : string) : bool :=
  match s with
  | EmptyString => true
  | String c s' => negb (is_brace c) && brace_free s'
  end.

Inductive piece : string -> Prop :=
| piece_char (c : ascii) :
    is_brace c = false -> piece (String c "")
| piece_group (g : string) :
    brace_free g = true -> piece ("{" ++ g ++ "}").

Inductive pieces : string -> Prop :=
| pieces_nil : pieces ""
| pieces_app (p r : string) : piece p -> pieces r -> pieces (p ++ r).

Definition one_level_object (s : string) : Prop :=
  exists body, s = "{" ++ body ++ "}" /\ pieces body.

(** [m] is the first one-level object text in [content]: no other starts
    before it, and it is the only one that starts where it starts. *)
Definition first_object (content m : string) : Prop :=
  exists pre post,
    content = pre ++ m ++ post /\ one_level_object m /\
    forall pre' m' post',
      content = pre' ++ m' ++ post' -> one_level_object m' ->
      String.length pre < String.length pre' \/ (pre' = pre /\ m' = m).

Definition has_no_object (content : string) : Prop :=
  forall pre m post, content = pre ++ m ++ post -> ~ one_level_object m.

(** The same scan written as a two-state automaton: [scan inner s] is the
    input left after the brace that closes the object, when [s] is read from
    inside the object ([inner = false]) or from inside a group of it. *)
Fixpoint scan (inner : bool) (s : string) : option string :=
  match s with
  | EmptyString => None
  | String c s' =>
      if Ascii.eqb c lbrace then (if inner then None else scan true s')
      else if Ascii.eqb c rbrace then (if inner then scan false s' else Some s')
      else scan inner s'
  end.

(** The input after the brace that closes a group, read from inside it. *)
Fixpoint close_group (s : string) : option string :=
  match s with
  | EmptyString => None
  | String c s' =>
      if Ascii.eqb c rbrace then Some s'
      else if Ascii.eqb c lbrace then None
      else close_group s'
  end.

(** Decision procedure for [one_level_object]. *)
Definition is_one_level_object (s : string) : bool :=
  match s with
  | String c s' =>
      Ascii.eqb c lbrace &&
      match scan false s' with Some rest => Str.is_empty rest | None => false end
  | EmptyString => false
  end.

(** ** Values

    What [JSON.parse] can return.  A number is kept as the text it was
    written with.  A string whose code units are all below 256 is a
    [JString]; a string with a code unit above 00FF, which only a [\u]
    escape can write in a reply of the 8-bit alphabet, is a [JWide] holding
    its UTF-16 code units.  The names of properties are strings of the same
    two kinds.  The type [W] of the wide strings is [wide] in a parsed reply
    and is empty in the body of a response, whose strings are of the 8-bit
    alphabet.  An object is the list of its own properties, each name once,
    in insertion order (the engine's rule that moves integer-like names to
    the front is not modelled: nothing below depends on the order). *)

Inductive name (W : Type) : Type :=
| Name (s : string)
| WideName (w : W).
Arguments Name {W} s.
Arguments WideName {W} w.

Inductive json (W : Type) : Type :=
| JNull
| JBool (b : bool)
| JNumber (lexeme : string)
| JString (s : string)
| JWide (w : W)
| JArray (elems : list (json W))
| JObject (props : list (name W * json W)).
Arguments JNull {W}.
Arguments JBool {W} b.
Arguments JNumber {W} lexeme.
Arguments JString {W} s.
Arguments JWide {W} w.
Arguments JArray {W} elems.
Arguments JObject {W} props.

(** A property name written as a string is the name of the first kind.  A
    pair and a list cell are elaborated from the type expected of them, so
    that the names of an object can be written as strings. *)
Coercion Name : string >-> name.
#[local] Arguments pair {A B} & a b.
#[local] Arguments cons {A} & a l.

Definition props (W : Type) : Type := list (name W * json W).

(** A JavaScript value met in this module: [undefined] or a JSON value. *)
Definition value (W : Type) : Type := option (json W).
Definition undefined {W : Type} : value W := None.

(** The UTF-16 code units of a string that has one above 00FF. *)
Definition wide : Type := list N.

Module Wide.

Fixpoint eqb (a b : wide) : bool :=
  match a, b with
  | [], [] => true
  | x :: a', y :: b' => N.eqb x y && eqb a' b'
  | _, _ => false
  end.

(** The string with these code units, when all are below 256. *)
Fixpoint narrow (units : list N) : option string :=
  match units with
  | [] => Some EmptyString
  | u :: units' =>
      if (u <? 256)%N
      then match narrow units' with
           | Some s => Some (String (ascii_of_N u) s)
           | None => None
           end
      else None
  end.

(** The code units of a string of the 8-bit alphabet. *)
Fixpoint of_string (s : string) : wide :=
  match s with
  | EmptyString => []
  | String c s' => N_of_ascii c :: of_string s'
  end.

(** The lower-case form of one code unit, as far as a search for ASCII text
    can see it.  Below 256 it is that of the 8-bit alphabet.  Above, the two
    code units whose lower-case form holds an ASCII character are mapped as
    Unicode maps them: U+212A KELVIN SIGN to k, and U+0130 to i followed by
    U+0307.  Every other code unit stands for its own lower-case form, which
    holds no ASCII character (neither does the lower-case form of a
    surrogate pair): the keywords searched for are ASCII, so that no search
    can tell the difference. *)
Definition lower_unit (u : N) : list N :=
  if (u <? 256)%N then [N_of_ascii (Str.lower_char (ascii_of_N u))]
  else if (u =? 8490)%N then [107%N]
  else if (u =? 304)%N then [105%N; 775%N]
  else [u].

(** [s.toLowerCase()], up to the code units that are not ASCII (see
    [lower_unit]). *)
Definition toLowerCase (units : wide) : wide := flat_map lower_unit units.

Fixpoint prefix (k units : list N) : bool :=
  match k, units with
  | [], _ => true
  | x :: k', y :: units' => N.eqb x y && prefix k' units'
  | _ :: _, [] => false
  end.

(** [s.includes(k)] *)
Fixpoint includes (units k : list N) : bool :=
  prefix k units ||
  match units with
  | [] => false
  | _ :: units' => includes units' k
  end.

End Wide.

(** The string value and the property name with the given code units. *)
Definition string_value (units : list N) : json wide :=
  match Wide.narrow units with
  | Some s => JString s
  | None => JWide units
  end.

Definition name_of (units : list N) : name wide :=
  match Wide.narrow units with
  | Some s => Name s
  | None => WideName units
  end.

Module Obj.

(** [k'] is the name written [k]. *)
Definition is_name {W} (k' : name W) (k : string) : bool :=
  match k' with
  | Name s => String.eqb s k
  | WideName _ => false
  end.

(** The own property [k] of an object, [undefined] when it has none. *)
Fixpoint get {W} (o : props W) (k : string) : value W :=
  match o with
  | [] => undefined
  | (k', v) :: o' => if is_name k' k then Some v else get o' k
  end.

(** [o[k] = v]: an existing property keeps its place, a new one is added
    last. *)
Fixpoint set {W} (o : props W) (k : string) (v : json W) : props W :=
  match o with
  | [] => [(Name k, v)]
  | (k', v') :: o' =>
      if is_name k' k then (k', v) :: o' else (k', v') :: set o' k v
  end.

Definition name_eqb (a b : name wide) : bool :=
  match a, b with
  | Name s, Name t => String.eqb s t
  | WideName u, WideName v => Wide.eqb u v
  | _, _ => false
  end.

(** The same assignment for a name of either kind. *)
Fixpoint define (o : props wide) (k : name wide) (v : json wide) : props wide :=
  match o with
  | [] => [(k, v)]
  | (k', v') :: o' =>
      if name_eqb k' k then (k', v) :: o' else (k', v') :: define o' k v
  end.

(** The own property of an object with a name of either kind. *)
Fixpoint lookup (o : props wide) (k : name wide) : value wide :=
  match o with
  | [] => undefined
  | (k', v) :: o' => if name_eqb k' k then Some v else lookup o' k
  end.

(** [{...o, ...src}]: the properties of [src] assigned onto [o] in order. *)
Definition assign (o src : props wide) : props wide :=
  fold_left (fun acc kv => define acc (fst kv) (snd kv)) src o.

(** The name of the property that holds element [i] of an array or a
    string. *)
Definition index_key (i : nat) : string :=
  NilEmpty.string_of_uint (Nat.to_uint i).

Definition indexed {W} (l : list (json W)) : props W :=
  combine (map (fun i => Name (index_key i)) (seq 0 (List.length l))) l.

(** The own enumerable properties of a value, which a spread copies. *)
Definition own_props (v : json wide) : props wide :=
  match v with
  | JObject o => o
  | JArray l => indexed l
  | JString t =>
      indexed (map (fun c => JString (String c EmptyString)) (list_ascii_of_string t))
  | JWide units => indexed (map (fun u => string_value [u]) units)
  | JNull | JBool _ | JNumber _ => []
  end.

End Obj.

(** ** Exceptions and the console *)

Inductive exn : Type :=
| Error (message : string)
| TypeError (operation : string)      (* the text names what failed, not the engine's message *)
| SyntaxError (text : string)         (* thrown by [JSON.parse] on [text] *)
| ExternalError (message : string).   (* raised by the file system or the network *)

Inductive outcome (A : Type) : Type :=
| Returns (a : A)
| Throws (e : exn).
Arguments Returns {A} a.
Arguments Throws {A} e.

Inductive arg : Type :=
| AStr (s : string)
| AExn (e : exn).

Inductive line : Type :=
| ConsoleLog (args : list arg)
| ConsoleError (args : list arg).

(** A computation that writes lines to the console and then returns or
    throws. *)
Definition IO (A : Type) : Type := (list line * outcome A)%type.

Module IOMonad.

Definition ret {A} (a : A) : IO A := ([], Returns a).
Definition throw {A} (e : exn) : IO A := ([], Throws e).
Definition lift {A} (o : outcome A) : IO A := ([], o).
Definition console_log (args : list arg) : IO unit := ([ConsoleLog args], Returns tt).
Definition console_error (args : list arg) : IO unit := ([ConsoleError args], Returns tt).

Definition bind {A B} (m : IO A) (f : A -> IO B) : IO B :=
  match m with
  | (l, Returns a) => let (l', o) := f a in ((l ++ l')%list, o)
  | (l, Throws e) => (l, Throws e)
  end.

(** [try { m } catch (e) { h e }] *)
Definition try_catch {A} (m : IO A) (h : exn -> IO A) : IO A :=
  match m with
  | (l, Returns a) => (l, Returns a)
  | (l, Throws e) => let (l', o) := h e in ((l ++ l')%list, o)
  end.

Definition obind {A B} (m : outcome A) (f : A -> outcome B) : outcome B :=
  match m with
  | Returns a => f a
  | Throws e => Throws e
  end.

End IOMonad.
Import IOMonad.

Notation "x <- m ;; k" := (bind m (fun x => k))
  (at level 61, m at next level, right associativity).
Notation "m ;;; k" := (bind m (fun _ => k))
  (at level 61, right associativity).
Notation "x <~ m ;; k" := (obind m (fun x => k))
  (at level 61, m at next level, right associativity).

(** ** JSON.parse

    The grammar of ECMA-404 as [JSON.parse] reads it.  [None] stands for the
    [SyntaxError] it throws.  A string literal is read as its UTF-16 code
    units: a character of the text is its own code unit, and a [\u] escape
    is the code unit it names, whatever it is. *)

Module JSON.

Definition dquote : ascii := ascii_of_nat 34.
Definition backslash : ascii := ascii_of_nat 92.

Definition is_ws (c : ascii) : bool :=
  let n := nat_of_ascii c in
  (n =? 32) || (n =? 9) || (n =? 10) || (n =? 13).

Fixpoint skip_ws (s : string) : string :=
  match s with
  | String c s' => if is_ws c then skip_ws s' else s
  | EmptyString => EmptyString
  end.

Definition is_digit (c : ascii) : bool :=
  let n := nat_of_ascii c in (48 <=? n) && (n <=? 57).

Definition hex_val (c : ascii) : option nat :=
  let n := nat_of_ascii c in
  if (48 <=? n) && (n <=? 57) then Some (n - 48)
  else if (65 <=? n) && (n <=? 70) then Some (n - 55)
  else if (97 <=? n) && (n <=? 102) then Some (n - 87)
  else None.

Definition hex4 (a b c d : ascii) : option nat :=
  match hex_val a, hex_val b, hex_val c, hex_val d with
  | Some x, Some y, Some z, Some t => Some (((x * 16 + y) * 16 + z) * 16 + t)
  | _, _, _, _ => None
  end.

(** The character an escape letter stands for. *)
Definition simple_escape (e : ascii) : option ascii :=
  if Ascii.eqb e dquote then Some dquote
  else if Ascii.eqb e backslash then Some backslash
  else if Ascii.eqb e "/" then Some "/"%char
  else if Ascii.eqb e "b" then Some (ascii_of_nat 8)
  else if Ascii.eqb e "f" then Some (ascii_of_nat 12)
  else if Ascii.eqb e "n" then Some (ascii_of_nat 10)
  else if Ascii.eqb e "r" then Some (ascii_of_nat 13)
  else if Ascii.eqb e "t" then Some (ascii_of_nat 9)
  else None.

Definition cons_unit (u : N) (r : option (list N * string))
  : option (list N * string) :=
  match r with
  | Some (t, rest) => Some (u :: t, rest)
  | None => None
  end.

(** A string literal after its opening quote: its code units and the input
    after its closing quote. *)
Fixpoint parse_chars (s : string) : option (list N * string) :=
  match s with
  | EmptyString => None
  | String c s' =>
      if Ascii.eqb c dquote then Some ([], s')
      else if Ascii.eqb c backslash then
        match s' with
        | EmptyString => None
        | String e s'' =>
            match simple_escape e with
            | Some x => cons_unit (N_of_ascii x) (parse_chars s'')
            | None =>
                if Ascii.eqb e "u" then
                  match s'' with
                  | String h1 (String h2 (String h3 (String h4 r))) =>
                      match hex4 h1 h2 h3 h4 with
                      | Some n => cons_unit (N.of_nat n) (parse_chars r)
                      | None => None
                      end
                  | _ => None
                  end
                else None
            end
        end
      else if nat_of_ascii c <? 32 then None
      else cons_unit (N_of_ascii c) (parse_chars s')
  end.

(** The longest run of digits at the front, and what follows it. *)
Fixpoint digits (s : string) : string * string :=
  match s with
  | String c s' =>
      if is_digit c
      then let (d, r) := digits s' in (String c d, r)
      else (EmptyString, s)
  | EmptyString => (EmptyString, EmptyString)
  end.

Definition parse_int (s : string) : option (string * string) :=
  match s with
  | String c r =>
      if Ascii.eqb c "0" then Some ("0", r)
      else if is_digit c then let (d, r') := digits r in Some (String c d, r')
      else None
  | EmptyString => None
  end.

Definition parse_frac (s : string) : option (string * string) :=
  match s with
  | String c r =>
      if Ascii.eqb c "." then
        match digits r with
        | (EmptyString, _) => None
        | (d, r') => Some (String c d, r')
        end
      else Some (EmptyString, s)
  | EmptyString => Some (EmptyString, s)
  end.

Definition parse_exp (s : string) : option (string * string) :=
  match s with
  | String c r =>
      if Ascii.eqb c "e" || Ascii.eqb c "E" then
        let (sign, r1) :=
          match r with
          | String g r0 =>
              if Ascii.eqb g "+" || Ascii.eqb g "-"
              then (String g EmptyString, r0) else (EmptyString, r)
          | EmptyString => (EmptyString, r)
          end in
        match digits r1 with
        | (EmptyString, _) => None
        | (d, r') => Some (String c (sign ++ d), r')
        end
      else Some (EmptyString, s)
  | EmptyString => Some (EmptyString, s)
  end.

(** A number: its text and the input after it. *)
Definition parse_number (s : string) : option (string * string) :=
  let (sign, s1) :=
    match s with
    | String c r => if Ascii.eqb c "-" then ("-", r) else (EmptyString, s)
    | EmptyString => (EmptyString, s)
    end in
  match parse_int s1 with
  | Some (i, s2) =>
      match parse_frac s2 with
      | Some (f, s3) =>
          match parse_exp s3 with
          | Some (e, s4) => Some (sign ++ i ++ f ++ e, s4)
          | None => None
          end
      | None => None
      end
  | None => None
  end.

Definition literal (word : string) (v : json wide) (s : string)
  : option (json wide * string) :=
  if String.prefix word s
  then Some (v, Str.drop (String.length word) s)
  else None.

(** One value at the front of the input, after white space.  Every
    recursive call is on input at most as long, and two calls in a row
    are on strictly shorter input, so [fuel] twice the length of the input
    is never used up. *)
Fixpoint parse_value (fuel : nat) (s : string) {struct fuel}
  : option (json wide * string) :=
  match fuel with
  | O => None
  | S n =>
      match skip_ws s with
      | EmptyString => None
      | String c r =>
          if Ascii.eqb c lbrace then
            match skip_ws r with
            | String d r' =>
                if Ascii.eqb d rbrace then Some (JObject [], r')
                else parse_members n [] r
            | EmptyString => None
            end
          else if Ascii.eqb c "[" then
            match skip_ws r with
            | String d r' =>
                if Ascii.eqb d "]" then Some (JArray [], r')
                else parse_elements n [] r
            | EmptyString => None
            end
          else if Ascii.eqb c dquote then
            match parse_chars r with
            | Some (t, r') => Some (string_value t, r')
            | None => None
            end
          else if Ascii.eqb c "t" then literal "true" (JBool true) (String c r)
          else if Ascii.eqb c "f" then literal "false" (JBool false) (String c r)
          else if Ascii.eqb c "n" then literal "null" JNull (String c r)
          else
            match parse_number (String c r) with
            | Some (t, r') => Some (JNumber t, r')
            | None => None
            end
      end
  end

(** The members of an object after its opening brace; [acc] holds the
    members read so far.  A repeated name overwrites the earlier value. *)
with parse_members (fuel : nat) (acc : props wide) (s : string) {struct fuel}
  : option (json wide * string) :=
  match fuel with
  | O => None
  | S n =>
      match skip_ws s with
      | String c r =>
          if Ascii.eqb c dquote then
            match parse_chars r with
            | Some (key, r1) =>
                match skip_ws r1 with
                | String c2 r2 =>
                    if Ascii.eqb c2 ":" then
                      match parse_value n r2 with
                      | Some (v, r3) =>
                          let acc' := Obj.define acc (name_of key) v in
                          match skip_ws r3 with
                          | String c4 r4 =>
                              if Ascii.eqb c4 "," then parse_members n acc' r4
                              else if Ascii.eqb c4 rbrace
                                   then Some (JObject acc', r4)
                                   else None
                          | EmptyString => None
                          end
                      | None => None
                      end
                    else None
                | EmptyString => None
                end
            | None => None
            end
          else None
      | EmptyString => None
      end
  end

(** The elements of an array after its opening bracket. *)
with parse_elements (fuel : nat) (acc : list (json wide)) (s : string) {struct fuel}
  : option (json wide * string) :=
  match fuel with
  | O => None
  | S n =>
      match parse_value n s with
      | Some (v, r) =>
          let acc' := (acc ++ [v])%list in
          match skip_ws r with
          | String c r' =>
              if Ascii.eqb c "," then parse_elements n acc' r'
              else if Ascii.eqb c "]" then Some (JArray acc', r')
              else None
          | EmptyString => None
          end
      | None => None
      end
  end.

(** [JSON.parse(text)] *)
Definition parse (text : string) : option (json wide) :=
  match parse_value (2 * String.length text + 2) text with
  | Some (v, rest) =>
      if Str.is_empty (skip_ws rest) then Some v else None
  | None => None
  end.

End JSON.

(** ** The prompts

    The template literals of the source, line by line; an apostrophe stands
    for a double quote of the source. *)

Definition sql_system_prompt (dbSchema : string) : string :=
  Str.quotes (Str.join_lines
      ["";
       "    Assistant is a natural language to SQL bot that returns a JSON object with the SQL query and ";
       "    the parameter values in it. The SQL will query a PostgreSQL database.";
       "";
       "    PostgreSQL tables, with their columns:";
       "";
       "    "])
  ++ dbSchema ++
  Str.quotes (Str.join_lines
      ["";
       "";
       "    Rules:";
       "    - Convert any strings to a PostgreSQL parameterized query value to avoid SQL injection attacks.";
       "    - Always return a JSON object with the SQL query and the parameter values in it. ";
       "    ";
       "    Example JSON object to return: { 'sql': '', 'paramValues': [] }";
       "    "]).

Definition message_system_prompt : string :=
  Str.quotes (Str.join_lines
      ["";
       "    Assistant is a bot designed to help users create email and SMS messages from data and ";
       "    return a JSON object with the message information in it.";
       "";
       "    Rules:";
       "    - Generate a subject line for the email message.";
       "    - Use the User Rules to generate the messages. ";
       "    - All messages should have a friendly tone and never use inappropriate language.";
       "    - SMS messages should be in plain text format and no more than 160 characters. ";
       "    - Start the message with 'Hi <Contact Name>,";
       "";
       "'. Contact Name can be found in the user prompt.";
       "    - Add carriage returns to the email message to make it easier to read. ";
       "    - End with a signature line that says 'Sincerely,";
       "Customer Service'.";
       "    - Return a JSON object with the emailSubject, emailBody, and SMS message values in it. ";
       "";
       "    Example JSON object: { 'emailSubject': '', 'emailBody': '', 'sms': '' }";
       "    "]).

Definition message_user_prompt (prompt contactName : string) : string :=
  Str.join_lines
      ["";
       "        User Rules: "]
  ++ prompt ++
  Str.join_lines
      ["";
       "        Contact Name: "]
  ++ contactName ++
  Str.join_lines
      ["";
       "    "].

(** ** The world the module runs in *)

(** The body of a response of the completion service, and a parsed reply. *)
Abbreviation body := (json Empty_set).
Abbreviation parsed := (json wide).

Record ChatRequest : Type := {
  model : option string;                 (* set by the direct provider call only *)
  max_tokens : nat;
  temperature : QArith_base.Q;
  messages : list (string * string)      (* role, content *)
}.

Record World : Type := {
  (* [process.env] *)
  OPENAI_API_KEY : option string;
  OPENAI_ENDPOINT : option string;
  OPENAI_MODEL : option string;
  OPENAI_API_VERSION : option string;
  (* [fs.promises.readFile(path, 'utf8')] *)
  readFile : string -> outcome string;
  (* [fetch(url, {method: 'POST', headers, body})] followed by
     [response.json()]: url, api-key header, body *)
  fetch_json : string -> string -> ChatRequest -> outcome body;
  (* [new OpenAIApi(new Configuration({apiKey})).createChatCompletion(req)],
     the [data] of its response: apiKey, request *)
  createChatCompletion : string -> ChatRequest -> outcome body
}.

(** Truthiness of an environment variable: set and not empty. *)
Definition env_truthy (v : option string) : bool :=
  match v with Some s => Str.truthy s | None => false end.

(** An environment variable inside a template literal. *)
Definition interpolate (v : option string) : string :=
  match v with Some s => s | None => "undefined" end.

(** ** Reading properties of values

    Valid for the property names this module reads ([choices], [0],
    [message], [content], [sql], [error]): none of them is [length] or a
    method of a built-in prototype. *)

Definition nullish {W} (v : value W) : bool :=
  match v with
  | None | Some JNull => true
  | Some _ => false
  end.

(** The index a property name denotes, for the one index read here. *)
Definition index_of (k : string) : option nat :=
  if String.eqb k "0" then Some 0 else None.

(** The element [i] of a wide string: the string of that one code unit. *)
Class WideString (W : Type) : Type := unit_at : W -> nat -> value W.

#[export] Instance no_wide_string : WideString Empty_set :=
  fun w _ => match w with end.

#[export] Instance wide_string : WideString wide :=
  fun units i =>
    match nth_error units i with
    | Some u => Some (string_value [u])
    | None => undefined
    end.

(** [v.k] and [v[k]] *)
Definition member {W} `{WideString W} (v : value W) (k : string)
  : outcome (value W) :=
  match v with
  | None => Throws (TypeError "Cannot read properties of undefined")
  | Some JNull => Throws (TypeError "Cannot read properties of null")
  | Some (JObject o) => Returns (Obj.get o k)
  | Some (JArray l) =>
      Returns (match index_of k with Some i => nth_error l i | None => undefined end)
  | Some (JString t) =>
      Returns (match index_of k with
               | Some i => match String.get i t with
                           | Some c => Some (JString (String c EmptyString))
                           | None => undefined
                           end
               | None => undefined
               end)
  | Some (JWide t) =>
      Returns (match index_of k with Some i => unit_at t i | None => undefined end)
  | Some (JBool _) | Some (JNumber _) => Returns undefined
  end.

(** [v?.k] *)
Definition opt_member {W} `{WideString W} (v : value W) (k : string)
  : outcome (value W) :=
  if nullish v then Returns undefined else member v k.

(** [v?.trim()] in the body of a response: only a string has a callable
    [trim]. *)
Definition opt_trim (v : value Empty_set) : outcome (option string) :=
  match v with
  | None | Some JNull => Returns None
  | Some (JString t) => Returns (Some (Str.trim t))
  | Some (JWide t) => match t with end
  | Some _ => Throws (TypeError "trim is not a function")
  end.

(** [choices[0]?.message?.content?.trim() ?? ''] *)
Definition first_choice_content (choices : value Empty_set) : outcome string :=
  choice <~ member choices "0" ;;
  message <~ opt_member choice "message" ;;
  content <~ opt_member message "content" ;;
  trimmed <~ opt_trim content ;;
  Returns (match trimmed with Some t => t | None => "" end).

(** ** The completion clients *)

Definition chat_messages (systemPrompt userPrompt : string)
  : list (string * string) :=
  [("system", systemPrompt); ("user", userPrompt)].

(** The test both clients apply to the content before extracting from it. *)
Definition has_both_braces (content : string) : bool :=
  Str.truthy content && Str.includes content "{" && Str.includes content "}".

Definition getAzureOpenAICompletion (w : World)
           (systemPrompt userPrompt : string) (temp : QArith_base.Q)
  : IO string :=
  if negb (env_truthy (OPENAI_API_KEY w)) || negb (env_truthy (OPENAI_ENDPOINT w))
     || negb (env_truthy (OPENAI_MODEL w))
  then throw (Error "Missing Azure OpenAI API key, endpoint, or model in environment variables.")
  else
    let url := interpolate (OPENAI_ENDPOINT w) ++ "/openai/deployments/"
               ++ interpolate (OPENAI_MODEL w)
               ++ "/chat/completions?api-version="
               ++ interpolate (OPENAI_API_VERSION w) in
    let data := {| model := None; max_tokens := 1024; temperature := temp;
                   messages := chat_messages systemPrompt userPrompt |} in
    try_catch
      (completion <- lift (fetch_json w url (interpolate (OPENAI_API_KEY w)) data) ;;
       content <- lift (choices <~ member (Some completion) "choices" ;;
                        first_choice_content choices) ;;
       console_log [AStr ("Azure OpenAI Output: " ++ String (ascii_of_nat 10) "");
                    AStr content] ;;;
       ret (if has_both_braces content then extractJson content else content))
      (fun e => console_error [AStr "Error getting data:"; AExn e] ;;; throw e).

Definition getOpenAICompletion (w : World)
           (systemPrompt userPrompt : string) (temp : QArith_base.Q)
  : IO string :=
  if negb (env_truthy (OPENAI_API_KEY w))
  then throw (Error "Missing OpenAI API key in environment variables.")
  else
    let request := {| model := Some "gpt-3.5-turbo"; max_tokens := 1024;
                      temperature := temp;
                      messages := chat_messages systemPrompt userPrompt |} in
    try_catch
      (data <- lift (createChatCompletion w (interpolate (OPENAI_API_KEY w)) request) ;;
       raw <- lift (choices <~ member (Some data) "choices" ;;
                    first_choice_content choices) ;;
       let content := extractJson raw in
       console_log [AStr ("OpenAI Output: " ++ String (ascii_of_nat 10) "");
                    AStr content] ;;;
       ret (if has_both_braces content then extractJson content else content))
      (fun e => console_error [AStr "Error getting data:"; AExn e] ;;; throw e).

(** The default of the [temperature] parameter, and the value the message
    flow passes: 0 and 0.5. *)
Definition default_temperature : QArith_base.Q := QArith_base.Qmake 0%Z 1%positive.
Definition message_temperature : QArith_base.Q := QArith_base.Qmake 1%Z 2%positive.

Definition isAzureOpenAI (w : World) : bool :=
  env_truthy (OPENAI_API_KEY w) && env_truthy (OPENAI_ENDPOINT w)
  && env_truthy (OPENAI_MODEL w).

Definition callOpenAI (w : World) (systemPrompt userPrompt : string)
           (temp : QArith_base.Q) : IO string :=
  if isAzureOpenAI w
  then getAzureOpenAICompletion w systemPrompt userPrompt temp
  else getOpenAICompletion w systemPrompt userPrompt temp.

(** ** isProhibitedQuery *)

Definition prohibitedKeywords : list string :=
  [ "insert"; "update"; "delete"; "drop"; "truncate"; "alter"; "create"; "replace";
    "information_schema"; "pg_catalog"; "pg_tables"; "pg_namespace"; "pg_class";
    "table_schema"; "table_name"; "column_name"; "column_default"; "is_nullable";
    "data_type"; "udt_name"; "character_maximum_length"; "numeric_precision";
    "numeric_scale"; "datetime_precision"; "interval_type"; "collation_name";
    "grant"; "revoke"; "rollback"; "commit"; "savepoint"; "vacuum"; "analyze" ].

(** The digits of a text read as a decimal number, other characters
    skipped. *)
Fixpoint digits_value (acc : Z) (s : string) : Z :=
  match s with
  | EmptyString => acc
  | String c s' =>
      if JSON.is_digit c
      then digits_value (10 * acc + (Z.of_nat (nat_of_ascii c) - 48)) s'
      else digits_value acc s'
  end.

(** The text before the first character that satisfies [p], and the text
    after that character. *)
Fixpoint split_at (p : ascii -> bool) (s : string) : string * string :=
  match s with
  | EmptyString => (EmptyString, EmptyString)
  | String c s' =>
      if p c then (EmptyString, s')
      else let (a, b) := split_at p s' in (String c a, b)
  end.

Definition signed_value (s : string) : Z :=
  match s with
  | String c s' =>
      if Ascii.eqb c "-" then (- digits_value 0 s')%Z else digits_value 0 s
  | EmptyString => 0%Z
  end.

(** The text of a JSON number as [m * 10 ^ e], up to its sign: [m] is its
    digits before the exponent, [e] its exponent less the number of digits
    of its fraction. *)
Definition number_parts (t : string) : Z * Z :=
  let (mantissa, exponent) :=
    split_at (fun c => Ascii.eqb c "e" || Ascii.eqb c "E") t in
  let (int, frac) := split_at (fun c => Ascii.eqb c ".") mantissa in
  (digits_value 0 (int ++ frac),
   (signed_value exponent - Z.of_nat (String.length frac))%Z).

(** The double a number text denotes is zero.  The text is rounded to the
    nearest double, a tie going to the even one: the least positive double
    is [2 ^ -1074], so that exactly the magnitudes up to [2 ^ -1075] give
    zero. *)
Definition number_is_zero (t : string) : bool :=
  let (m, e) := number_parts t in
  (m =? 0)%Z || ((e <? 0)%Z && (m * 2 ^ 1075 <=? 10 ^ (- e))%Z).

(** [!v] *)
Definition falsy (v : value wide) : bool :=
  match v with
  | None | Some JNull => true
  | Some (JBool b) => negb b
  | Some (JNumber t) => number_is_zero t
  | Some (JString t) => Str.is_empty t
  | Some (JWide t) => match t with [] => true | _ :: _ => false end
  | Some (JArray _) | Some (JObject _) => false
  end.

(** The filter on a string: some keyword occurs in the lower-cased query. *)
Definition has_prohibited_keyword (query : string) : bool :=
  let queryLower := Str.toLowerCase query in
  existsb (fun keyword => Str.includes queryLower keyword) prohibitedKeywords.

(** The same filter on a string given by its code units. *)
Definition has_prohibited_keyword_wide (query : wide) : bool :=
  let queryLower := Wide.toLowerCase query in
  existsb (fun keyword => Wide.includes queryLower (Wide.of_string keyword))
          prohibitedKeywords.

(** The function is declared on strings, and is called on whatever the
    parsed reply holds in the field: a truthy value that is not a string has
    no [toLowerCase] to call. *)
Definition isProhibitedQuery (query : value wide) : outcome bool :=
  if falsy query then Returns false
  else match query with
       | Some (JString t) => Returns (has_prohibited_keyword t)
       | Some (JWide t) => Returns (has_prohibited_keyword_wide t)
       | _ => Throws (TypeError "query.toLowerCase is not a function")
       end.

(** ** getSQL *)

Definition default_queryData : props wide :=
  [("sql", JString ""); ("paramValues", JArray []); ("error", JString "")].

(** The test both flows apply to the reply before parsing it. *)
Definition looks_like_object (results : string) : bool :=
  Str.truthy results && Str.startsWith results "{" && Str.endsWithChar results rbrace.

Definition JSON_parse (text : string) : outcome parsed :=
  match JSON.parse text with
  | Some v => Returns v
  | None => Throws (SyntaxError text)
  end.

(** [q.k = v].  Every assignment of this module is to an object (see
    [JSON_parse_object] for the parsed reply); on [null] and, in the strict
    mode of a module, on a primitive value it throws. *)
Definition assign_member (q : parsed) (k : string) (v : parsed) : outcome parsed :=
  match q with
  | JObject o => Returns (JObject (Obj.set o k v))
  | _ => Throws (TypeError "Cannot create property")
  end.

(** [isProhibitedQuery(queryData.sql) || isProhibitedQuery(queryData.error)] *)
Definition is_prohibited (queryData : parsed) : outcome bool :=
  sql <~ member (Some queryData) "sql" ;;
  flagged <~ isProhibitedQuery sql ;;
  if flagged then Returns true
  else (error <~ member (Some queryData) "error" ;;
        isProhibitedQuery error).

(** The statements of the [try] block after the completion call, run on
    the reply: the variable [queryData] as the block leaves it, and the
    exception that ended the block if one did. *)
Definition getSQL_parse (queryData : parsed) (results : string)
  : parsed * option exn :=
  match (if looks_like_object results
         then JSON_parse results
         else Returns (JObject (Obj.set (Obj.own_props queryData) "error"
                                        (JString results)))) with
  | Throws e => (queryData, Some e)
  | Returns queryData1 =>
      match is_prohibited queryData1 with
      | Throws e => (queryData1, Some e)
      | Returns false => (queryData1, None)
      | Returns true =>
          match assign_member queryData1 "sql" (JString "") with
          | Throws e => (queryData1, Some e)
          | Returns queryData2 =>
              match assign_member queryData2 "error" (JString "Prohibited query.") with
              | Throws e => (queryData2, Some e)
              | Returns queryData3 => (queryData3, None)
              end
          end
      end
  end.

(** The [catch] clause of both flows: the exception is written to the
    console and the variable is returned as it stands. *)
Definition log_and_return (l : list line) (st : parsed * option exn) : IO parsed :=
  match st with
  | (q, Some e) => ((l ++ [ConsoleLog [AExn e]])%list, Returns q)
  | (q, None) => (l, Returns q)
  end.

Definition getSQL (w : World) (userPrompt : string) : IO parsed :=
  dbSchema <- lift (readFile w "db.schema") ;;
  let systemPrompt := sql_system_prompt dbSchema in
  let queryData := JObject default_queryData in
  match callOpenAI w systemPrompt userPrompt default_temperature with
  | (l, Throws e) => log_and_return l (queryData, Some e)
  | (l, Returns results) => log_and_return l (getSQL_parse queryData results)
  end.

(** ** completeEmailSMSMessages *)

Definition default_content : props wide :=
  [("status", JBool false); ("email", JString ""); ("sms", JString "");
   ("error", JString "")].

(** [{ content, ...parsed }]: a property named [content] holding the current
    value of the variable, then the own properties of [parsed]. *)
Definition content_and_spread (content reply : parsed) : parsed :=
  JObject (Obj.assign [("content", content)] (Obj.own_props reply)).

Definition completeEmailSMSMessages_parse (content : parsed) (results : string)
  : parsed * option exn :=
  if looks_like_object results then
    match JSON_parse results with
    | Throws e => (content, Some e)
    | Returns reply =>
        let content1 := content_and_spread content reply in
        match assign_member content1 "status" (JBool true) with
        | Throws e => (content1, Some e)
        | Returns content2 => (content2, None)
        end
    end
  else
    match assign_member content "error" (JString results) with
    | Throws e => (content, Some e)
    | Returns content1 => (content1, None)
    end.

Definition completeEmailSMSMessages (w : World)
           (prompt company contactName : string) : IO parsed :=
  console_log [AStr "Inputs:"; AStr prompt; AStr company; AStr contactName] ;;;
  let systemPrompt := message_system_prompt in
  let userPrompt := message_user_prompt prompt contactName in
  let content := JObject default_content in
  match callOpenAI w systemPrompt userPrompt message_temperature with
  | (l, Throws e) => log_and_return l (content, Some e)
  | (l, Returns results) =>
      log_and_return l (completeEmailSMSMessages_parse content results)
  end.

(** ** Scenarios

    Worlds in which the schema file reads as [schema] and the completion
    service answers every request with one choice whose message content is
    [reply]; one world per backend, and the failures of each part. *)

Definition completion_of (reply : string) : body :=
  JObject [("choices",
            JArray [JObject [("index", JNumber "0");
                             ("message", JObject [("role", JString "assistant");
                                                  ("content", JString reply)])]])].

Definition schema : string := "- customers (id, name, email)".

Definition failure : exn := ExternalError "unavailable".

(** All of key, endpoint and model are set: the hosted backend is chosen. *)
Definition hosted_world (reply : string) : World :=
  {| OPENAI_API_KEY := Some "key";
     OPENAI_ENDPOINT := Some "https://example.openai.azure.com";
     OPENAI_MODEL := Some "gpt-35-turbo";
     OPENAI_API_VERSION := Some "2023-05-15";
     readFile := fun _ => Returns schema;
     fetch_json := fun _ _ _ => Returns (completion_of reply);
     createChatCompletion := fun _ _ => Throws failure |}.

(** Only the key is set: the direct provider backend is chosen. *)
Definition direct_world (reply : string) : World :=
  {| OPENAI_API_KEY := Some "key";
     OPENAI_ENDPOINT := None;
     OPENAI_MODEL := None;
     OPENAI_API_VERSION := None;
     readFile := fun _ => Returns schema;
     fetch_json := fun _ _ _ => Throws failure;
     createChatCompletion := fun _ _ => Returns (completion_of reply) |}.

(** The hosted backend, with no [db.schema] to read. *)
Definition no_schema_world (reply : string) : World :=
  {| OPENAI_API_KEY := Some "key";
     OPENAI_ENDPOINT := Some "https://example.openai.azure.com";
     OPENAI_MODEL := Some "gpt-35-turbo";
     OPENAI_API_VERSION := Some "2023-05-15";
     readFile := fun _ => Throws (ExternalError "ENOENT: no such file or directory, open 'db.schema'");
     fetch_json := fun _ _ _ => Returns (completion_of reply);
     createChatCompletion := fun _ _ => Throws failure |}.

(** The hosted backend, with the network down. *)
Definition offline_world : World :=
  {| OPENAI_API_KEY := Some "key";
     OPENAI_ENDPOINT := Some "https://example.openai.azure.com";
     OPENAI_MODEL := Some "gpt-35-turbo";
     OPENAI_API_VERSION := Some "2023-05-15";
     readFile := fun _ => Returns schema;
     fetch_json := fun _ _ _ => Throws failure;
     createChatCompletion := fun _ _ => Throws failure |}.

(** What a computation returned or threw, and what it wrote. *)
Definition result {A} (m : IO A) : outcome A := snd m.
Definition console {A} (m : IO A) : list line := fst m.

(** The completion call of [getSQL]: the schema file is read and the call is
    made with the prompt built from it. *)
Definition sql_completion (w : World) (userPrompt : string)
           (r : outcome string) : Prop :=
  exists dbSchema,
    readFile w "db.schema" = Returns dbSchema /\
    result (callOpenAI w (sql_system_prompt dbSchema) userPrompt
                       default_temperature) = r.

(** The completion call of [completeEmailSMSMessages]. *)
Definition message_completion (w : World) (prompt contactName : string)
           (r : outcome string) : Prop :=
  result (callOpenAI w message_system_prompt
                     (message_user_prompt prompt contactName)
                     message_temperature) = r.

(** Reading an own field of a returned value. *)
Definition field {W} (q : json W) (k : string) : value W :=
  match q with
  | JObject o => Obj.get o k
  | _ => undefined
  end.

(** The same for a name of either kind. *)
Definition property (q : parsed) (k : name wide) : value wide :=
  match q with
  | JObject o => Obj.lookup o k
  | _ => undefined
  end.

(** ** The service seen from the flows *)

(** [completion.choices[0]?.message?.content?.trim() ?? ''] on the body of a
    response, as both clients read it. *)
Definition response_content (completion : body) : outcome string :=
  choices <~ member (Some completion) "choices" ;;
  first_choice_content choices.

(** The backend that the configuration selects answers every request with
    the body [completion]. *)
Definition answers (w : World) (completion : body) : Prop :=
  if isAzureOpenAI w
  then forall url key request, fetch_json w url key request = Returns completion
  else env_truthy (OPENAI_API_KEY w) = true /\
       forall key request, createChatCompletion w key request = Returns completion.

(** The requests of this module: 1024 tokens at most, a system message
    followed by a user message, the given temperature and model. *)
Definition request_shape (temp : QArith_base.Q) (m : option string)
           (request : ChatRequest) : Prop :=
  model request = m /\ max_tokens request = 1024 /\ temperature request = temp /\
  exists systemPrompt userPrompt,
    messages request = [("system", systemPrompt); ("user", userPrompt)].

(** The address of the hosted deployment, as the hosted client builds it. *)
Definition azure_url (w : World) : string :=
  interpolate (OPENAI_ENDPOINT w) ++ "/openai/deployments/"
  ++ interpolate (OPENAI_MODEL w)
  ++ "/chat/completions?api-version="
  ++ interpolate (OPENAI_API_VERSION w).

(** Two worlds with the same configuration, whose selected backend gives
    the same answer to every request of that shape made with the configured
    key (and, for the hosted backend, at the address of the deployment).
    They may differ in every file, in the backend that is not selected and
    in the answers to other requests. *)
Definition same_service (temp : QArith_base.Q) (w w' : World) : Prop :=
  OPENAI_API_KEY w = OPENAI_API_KEY w' /\
  OPENAI_ENDPOINT w = OPENAI_ENDPOINT w' /\
  OPENAI_MODEL w = OPENAI_MODEL w' /\
  OPENAI_API_VERSION w = OPENAI_API_VERSION w' /\
  (isAzureOpenAI w = true ->
   forall request,
     request_shape temp None request ->
     fetch_json w (azure_url w) (interpolate (OPENAI_API_KEY w)) request
     = fetch_json w' (azure_url w) (interpolate (OPENAI_API_KEY w)) request) /\
  (isAzureOpenAI w = false ->
   forall request,
     request_shape temp (Some "gpt-3.5-turbo") request ->
     createChatCompletion w (interpolate (OPENAI_API_KEY w)) request
     = createChatCompletion w' (interpolate (OPENAI_API_KEY w)) request).

(** No environment variable is set. *)
Definition unconfigured_world : World :=
  {| OPENAI_API_KEY := None;
     OPENAI_ENDPOINT := None;
     OPENAI_MODEL := None;
     OPENAI_API_VERSION := None;
     readFile := fun _ => Returns schema;
     fetch_json := fun _ _ _ => Throws failure;
     createChatCompletion := fun _ _ => Throws failure |}.

(** The hosted backend answering with the body [completion]. *)
Definition hosted_world_answering (completion : body) : World :=
  {| OPENAI_API_KEY := Some "key";
     OPENAI_ENDPOINT := Some "https://example.openai.azure.com";
     OPENAI_MODEL := Some "gpt-35-turbo";
     OPENAI_API_VERSION := Some "2023-05-15";
     readFile := fun _ => Returns schema;
     fetch_json := fun _ _ _ => Returns completion;
     createChatCompletion := fun _ _ => Throws failure |}.

(** The hosted backend of [hosted_world], in a world where every file but
    [db.schema] is missing, the direct provider answers too, and a request
    with another token limit or another key fails. *)
Definition other_hosted_world (reply : string) : World :=
  {| OPENAI_API_KEY := Some "key";
     OPENAI_ENDPOINT := Some "https://example.openai.azure.com";
     OPENAI_MODEL := Some "gpt-35-turbo";
     OPENAI_API_VERSION := Some "2023-05-15";
     readFile := fun path => if String.eqb path "db.schema" then Returns schema
                             else Throws failure;
     fetch_json := fun _ key request =>
                     if (max_tokens request =? 1024) && String.eqb key "key"
                     then Returns (completion_of reply) else Throws failure;
     createChatCompletion := fun _ _ => Returns (completion_of "unused") |}.

(** * Properties *)

Example extractJson_ex1 :
  extractJson "Sure: {a:{b:1}} and {c:2}" = "{a:{b:1}}".
Proof. vm_compute. reflexivity. Qed.

Example extractJson_ex2 : extractJson "{a:{b:{c}}} {d}" = "{b:{c}}".
Proof. vm_compute. reflexivity. Qed.

Example JSON_parse_ex1 :
  JSON.parse (Str.quotes "{'sql':'DROP TABLE users','paramValues':[]}")
  = Some (JObject [("sql", JString "DROP TABLE users"); ("paramValues", JArray [])]).
Proof. vm_compute. reflexivity. Qed.

Example JSON_parse_ex2 :
  JSON.parse (Str.quotes " { 'a' : [1, -2.5e+3, true, null, {'b':'x\nyA'}], 'a' : {} } ")
  = Some (JObject [("a", JObject [])]).
Proof. vm_compute. reflexivity. Qed.

Example JSON_parse_ex3 :
  JSON.parse (Str.quotes "[[1,[2,[3]]],{'k':[[]]}]")
  = Some (JArray [JArray [JNumber "1"; JArray [JNumber "2"; JArray [JNumber "3"]]];
                  JObject [("k", JArray [JArray []])]]).
Proof. vm_compute. reflexivity. Qed.

Example JSON_parse_ex4 : JSON.parse "{bad}" = None /\ JSON.parse "01" = None
  /\ JSON.parse (Str.quotes "{'a':1,}") = None /\ JSON.parse "[1 2]" = None.
Proof. vm_compute. repeat split. Qed.

(** An escape is the code unit it names: below 256 it is a character of the
    string, above it makes the string a wide one; a name is read the same
    way, and a repeated name of either kind overwrites. *)
Example JSON_parse_ex5 :
  JSON.parse (Str.quotes "{'sql':'DROP TABLE \u4e2d','\u00e9':'\u0041','\u4E2D':1,'\u4e2d':2}")
  = Some (JObject [("sql", JWide (Wide.of_string "DROP TABLE " ++ [20013%N])%list);
                   (Name (String (ascii_of_nat 233) ""), JString "A");
                   (WideName [20013%N], JNumber "2")]).
Proof. vm_compute. reflexivity. Qed.

Example JSON_parse_ex6 :
  JSON.parse (Str.quotes "{'a':'\u12'}") = None /\
  JSON.parse (Str.quotes "{'a':'\x41'}") = None /\
  JSON.parse (Str.quotes "{'a':'\u00zz'}") = None.
Proof. vm_compute. repeat split. Qed.

(** ** Strings *)

Lemma append_assoc (a b c : string) : (a ++ b) ++ c = a ++ (b ++ c).
Proof. induction a as [|x a IH]; simpl; [reflexivity | now rewrite IH]. Qed.

Lemma append_nil_r (a : string) : a ++ "" = a.
Proof. induction a as [|x a IH]; simpl; [reflexivity | now rewrite IH]. Qed.

Lemma length_append (a b : string) :
  String.length (a ++ b) = String.length a + String.length b.
Proof. induction a as [|x a IH]; simpl; [reflexivity | now rewrite IH]. Qed.

Lemma take_append (a b : string) : Str.take (String.length a) (a ++ b) = a.
Proof. induction a as [|x a IH]; simpl; [now destruct b | now rewrite IH]. Qed.

Lemma prefix_iff (k s : string) :
  String.prefix k s = true <-> exists post, s = k ++ post.
Proof.
  revert s; induction k as [|x k IH]; intros s; simpl.
  - split; [intros _; now exists s | intros _; now destruct s].
  - destruct s as [|y s].
    + split; [discriminate | intros [post H]; discriminate].
    + simpl. destruct (ascii_dec x y) as [->|Hxy].
      * rewrite IH. split; intros [post H]; exists post.
        -- now rewrite H.
        -- now inversion H.
      * split; [discriminate | intros [post H]; inversion H; subst; now elim Hxy].
Qed.

Lemma includes_nil (k : string) :
  Str.includes "" k = String.prefix k "" || false.
Proof. reflexivity. Qed.

Lemma includes_cons (c : ascii) (s k : string) :
  Str.includes (String c s) k = String.prefix k (String c s) || Str.includes s k.
Proof. reflexivity. Qed.

Lemma includes_iff (s k : string) :
  Str.includes s k = true <-> exists pre post, s = pre ++ k ++ post.
Proof.
  induction s as [|c s IH].
  - rewrite includes_nil, orb_false_r, prefix_iff. split.
    + intros [post H]. now exists "", post.
    + intros [pre [post H]]. destruct pre; simpl in H; [now exists post | discriminate].
  - rewrite includes_cons, orb_true_iff, prefix_iff, IH. split.
    + intros [[post H] | [pre [post H]]].
      * now exists "", post.
      * exists (String c pre), post. simpl. now rewrite H.
    + intros [pre [post H]]. destruct pre as [|x pre]; simpl in H.
      * left. now exists post.
      * right. inversion H. now exists pre, post.
Qed.

(** ** The fuel of the matcher *)

Lemma star_loop_ext (m : matcher) (k k' : string -> option string) :
  (forall s c c', (forall t, String.length t <= String.length s -> c t = c' t) ->
                  m s c = m s c') ->
  forall fuel s,
    (forall t, String.length t <= String.length s -> k t = k' t) ->
    star_loop m k fuel s = star_loop m k' fuel s.
Proof.
  intros Hm. induction fuel as [|f IH]; intros s Hk; cbn [star_loop].
  - apply Hk. lia.
  - rewrite (Hk s) by lia. f_equal. apply Hm. intros t Ht.
    destruct (String.length t <? String.length s) eqn:E; [| reflexivity].
    apply IH. intros u Hu. apply Hk. lia.
Qed.

(** A match looks at its continuation only on what is left of the input. *)
Lemma rmatch_ext (r : pattern) :
  forall s k k',
    (forall t, String.length t <= String.length s -> k t = k' t) ->
    rmatch r s k = rmatch r s k'.
Proof.
  induction r as [c | cs | r1 IH1 r2 IH2 | r1 IH1 r2 IH2 | r1 IH1];
    intros s k k' Hk; cbn [rmatch].
  - destruct s as [|a s]; [reflexivity |].
    destruct (Ascii.eqb a c); [apply Hk; simpl; lia | reflexivity].
  - destruct s as [|a s]; [reflexivity |].
    destruct (existsb (Ascii.eqb a) cs); [reflexivity | apply Hk; simpl; lia].
  - apply IH1. intros t Ht. apply IH2. intros u Hu. apply Hk. lia.
  - now rewrite (IH1 s k k' Hk), (IH2 s k k' Hk).
  - now apply star_loop_ext.
Qed.

Lemma star_loop_none (m : matcher) :
  (forall s, m s (fun _ => None) = None) ->
  (forall s c c', (forall t, String.length t <= String.length s -> c t = c' t) ->
                  m s c = m s c') ->
  forall fuel s, star_loop m (fun _ => None) fuel s = None.
Proof.
  intros Hnone Hext. induction fuel as [|f IH]; intros s; cbn [star_loop];
    [reflexivity |].
  rewrite (Hext s _ (fun _ => None)); [now rewrite Hnone |].
  intros t _. now destruct (String.length t <? String.length s).
Qed.

(** A match succeeds only through its continuation. *)
Lemma rmatch_none (r : pattern) : forall s, rmatch r s (fun _ => None) = None.
Proof.
  induction r as [c | cs | r1 IH1 r2 IH2 | r1 IH1 r2 IH2 | r1 IH1];
    intros s; cbn [rmatch].
  - destruct s as [|a s]; [reflexivity | now destruct (Ascii.eqb a c)].
  - destruct s as [|a s]; [reflexivity | now destruct (existsb (Ascii.eqb a) cs)].
  - rewrite (rmatch_ext r1 s _ (fun _ => None)); [apply IH1 |].
    intros t _. apply IH2.
  - now rewrite IH1, IH2.
  - apply star_loop_none; [exact IH1 | apply rmatch_ext].
Qed.

(** The loop of a repetition never runs out of fuel: more of it than the
    length of the input changes nothing. *)
Lemma star_loop_fuel (r : pattern) (k : string -> option string) :
  forall fuel s,
    String.length s <= fuel ->
    star_loop (rmatch r) k (S fuel) s = star_loop (rmatch r) k fuel s.
Proof.
  induction fuel as [|f IH]; intros s Hs.
  - destruct s; [| simpl in Hs; lia].
    cbn [star_loop]. rewrite (rmatch_ext r "" _ (fun _ => None)).
    + now rewrite rmatch_none.
    + intros t Ht. reflexivity.
  - cbn [star_loop]. f_equal. apply rmatch_ext. intros t Ht.
    destruct (String.length t <? String.length s) eqn:E; [| reflexivity].
    apply Nat.ltb_lt in E. apply IH. lia.
Qed.

(** ** The extractor *)

Lemma is_brace_cases (c : ascii) :
  (c = lbrace /\ is_brace c = true) \/ (c = rbrace /\ is_brace c = true)
  \/ (c <> lbrace /\ c <> rbrace /\ is_brace c = false).
Proof.
  unfold is_brace.
  destruct (Ascii.eqb_spec c lbrace); [now left |].
  destruct (Ascii.eqb_spec c rbrace); [right; now left |].
  right; right; auto.
Qed.

Lemma rmatch_not_brace (c : ascii) (s : string) (k : string -> option string) :
  rmatch not_brace (String c s) k = if is_brace c then None else k s.
Proof.
  unfold is_brace; simpl.
  destruct (Ascii.eqb c lbrace), (Ascii.eqb c rbrace); reflexivity.
Qed.

Lemma close_group_length (s r : string) :
  close_group s = Some r -> String.length r < String.length s.
Proof.
  revert r; induction s as [|c s IH]; intros r; simpl; [discriminate |].
  destruct (Ascii.eqb c rbrace).
  - intros H; inversion H; subst; lia.
  - destruct (Ascii.eqb c lbrace); [discriminate |].
    intros H; apply IH in H; lia.
Qed.

Lemma scan_inner (s : string) :
  scan true s = match close_group s with Some r => scan false r | None => None end.
Proof.
  induction s as [|c s IH]; simpl; [reflexivity |].
  destruct (is_brace_cases c) as [[-> _] | [[-> _] | (Hl & Hr & _)]].
  - reflexivity.
  - reflexivity.
  - apply Ascii.eqb_neq in Hl, Hr. now rewrite Hl, Hr.
Qed.

(** The greedy run of non-braces inside a group, followed by the closing
    brace, has one way to succeed. *)
Lemma star_not_brace (kk : string -> option string) (fuel : nat) :
  forall s, String.length s <= fuel ->
  star_loop (rmatch not_brace) (fun s1 => rmatch (Chr rbrace) s1 kk) fuel s
  = match close_group s with Some r => kk r | None => None end.
Proof.
  induction fuel as [|fuel IH]; intros s Hlen.
  - destruct s; [reflexivity | simpl in Hlen; lia].
  - destruct s as [|c s]; [reflexivity |].
    cbn [star_loop]. rewrite rmatch_not_brace.
    destruct (is_brace_cases c) as [[-> Hb] | [[-> Hb] | (Hl & Hr & Hb)]];
      rewrite Hb.
    + reflexivity.
    + reflexivity.
    + replace (String.length s <? String.length (String c s)) with true
        by (symmetry; apply Nat.ltb_lt; simpl; lia).
      rewrite IH by (simpl in Hlen; lia).
      apply Ascii.eqb_neq in Hl, Hr.
      cbn [rmatch close_group]. rewrite Hl, Hr.
      destruct (close_group s) as [r|]; [now destruct (kk r) | reflexivity].
Qed.

Lemma rmatch_chr (a c : ascii) (s : string) (k : string -> option string) :
  rmatch (Chr a) (String c s) k = if Ascii.eqb c a then k s else None.
Proof. reflexivity. Qed.

Lemma rmatch_group (c : ascii) (s : string) (k : string -> option string) :
  rmatch group_pattern (String c s) k
  = if Ascii.eqb c lbrace
    then star_loop (rmatch not_brace) (fun s1 => rmatch (Chr rbrace) s1 k)
                   (String.length s) s
    else None.
Proof. reflexivity. Qed.

Lemma rmatch_piece (s : string) (k : string -> option string) :
  rmatch piece_pattern s k
  = or_else (rmatch not_brace s k) (rmatch group_pattern s k).
Proof. reflexivity. Qed.

Lemma ltb_tail (c : ascii) (r s : string) :
  String.length r <= String.length s ->
  (String.length r <? String.length (String c s)) = true.
Proof. intros H. apply Nat.ltb_lt. simpl. lia. Qed.

(** The loop over the pieces of the object, followed by its closing brace,
    is the scan: no choice point of the matcher has a second way on. *)
Lemma star_piece (fuel : nat) :
  forall s, String.length s <= fuel ->
  star_loop (rmatch piece_pattern) (fun s1 => rmatch (Chr rbrace) s1 Some) fuel s
  = scan false s.
Proof.
  induction fuel as [|fuel IH]; intros s Hlen.
  - destruct s; [reflexivity | simpl in Hlen; lia].
  - destruct s as [|c s]; [reflexivity |].
    cbn [star_loop]. rewrite rmatch_piece, rmatch_not_brace, rmatch_group, rmatch_chr.
    simpl in Hlen.
    destruct (is_brace_cases c) as [[-> Hb] | [[-> Hb] | (Hl & Hr & Hb)]];
      rewrite Hb.
    + (* a group *)
      change (Ascii.eqb lbrace lbrace) with true.
      change (Ascii.eqb lbrace rbrace) with false. cbv iota.
      rewrite star_not_brace by lia.
      change (scan false (String lbrace s)) with (scan true s).
      rewrite scan_inner.
      destruct (close_group s) as [r|] eqn:Hr; [| reflexivity].
      apply close_group_length in Hr.
      rewrite ltb_tail by lia. rewrite IH by lia.
      now destruct (scan false r).
    + (* the closing brace *)
      change (Ascii.eqb rbrace lbrace) with false.
      change (Ascii.eqb rbrace rbrace) with true. reflexivity.
    + rewrite ltb_tail by lia. rewrite IH by lia.
      apply Ascii.eqb_neq in Hl, Hr.
      cbn [scan]. rewrite Hl, Hr.
      now destruct (scan false s).
Qed.

Lemma rmatch_regex (s : string) :
  rmatch regex s Some
  = match s with
    | String c s' => if Ascii.eqb c lbrace then scan false s' else None
    | EmptyString => None
    end.
Proof.
  destruct s as [|c s]; [reflexivity |].
  change (rmatch regex (String c s) Some)
    with (if Ascii.eqb c lbrace
          then star_loop (rmatch piece_pattern)
                 (fun s1 => rmatch (Chr rbrace) s1 Some) (String.length s) s
          else None).
  destruct (Ascii.eqb c lbrace); [| reflexivity].
  now apply star_piece.
Qed.

Lemma scan_group (g x : string) :
  brace_free g = true -> scan true (g ++ "}" ++ x) = scan false x.
Proof.
  induction g as [|c g IH]; simpl; [reflexivity |].
  intros H. apply andb_true_iff in H as [Hc Hg].
  destruct (is_brace_cases c) as [[_ Hb] | [[_ Hb] | (Hl & Hr & _)]];
    try (rewrite Hb in Hc; discriminate).
  apply Ascii.eqb_neq in Hl, Hr. rewrite Hl, Hr. now apply IH.
Qed.

(** The scan accepts the pieces of an object and its closing brace. *)
Lemma scan_pieces (body : string) :
  pieces body -> forall rest, scan false (body ++ "}" ++ rest) = Some rest.
Proof.
  induction 1 as [|p r Hp _ IH]; intros rest; [reflexivity |].
  rewrite append_assoc.
  destruct Hp as [c Hc | g Hg].
  - simpl.
    destruct (is_brace_cases c) as [[_ Hb] | [[_ Hb] | (Hl & Hr & _)]];
      try (rewrite Hb in Hc; discriminate).
    apply Ascii.eqb_neq in Hl, Hr. rewrite Hl, Hr. apply IH.
  - change (scan false (("{" ++ g ++ "}") ++ r ++ "}" ++ rest))
      with (scan true ((g ++ "}") ++ r ++ "}" ++ rest)).
    rewrite append_assoc, scan_group by assumption. apply IH.
Qed.

(** What the scan accepts is pieces and a closing brace. *)
Lemma scan_sound (t : string) :
  (forall rest, scan false t = Some rest ->
     exists body, t = body ++ "}" ++ rest /\ pieces body) /\
  (forall rest, scan true t = Some rest ->
     exists g body, t = g ++ "}" ++ body ++ "}" ++ rest
                    /\ brace_free g = true /\ pieces body).
Proof.
  induction t as [|c t [IHo IHi]]; [split; intros rest H; discriminate |].
  destruct (is_brace_cases c) as [[-> _] | [[-> _] | (Hl & Hr & Hb)]].
  - split; intros rest H; [| discriminate].
    change (scan false (String lbrace t)) with (scan true t) in H.
    destruct (IHi rest H) as (g & body & -> & Hg & Hbody).
    exists (("{" ++ g ++ "}") ++ body). split.
    + now rewrite !append_assoc.
    + apply pieces_app; [now apply piece_group | assumption].
  - split; intros rest H.
    + change (scan false (String rbrace t)) with (Some t) in H.
      inversion H; subst. exists "". split; [reflexivity | constructor].
    + change (scan true (String rbrace t)) with (scan false t) in H.
      destruct (IHo rest H) as (body & -> & Hbody).
      exists "", body. auto.
  - pose proof Hl as Hl'. pose proof Hr as Hr'.
    apply Ascii.eqb_neq in Hl', Hr'.
    split; intros rest H; simpl in H; rewrite Hl', Hr' in H.
    + destruct (IHo rest H) as (body & -> & Hbody).
      exists (String c "" ++ body). split; [reflexivity |].
      apply pieces_app; [now apply piece_char | assumption].
    + destruct (IHi rest H) as (g & body & -> & Hg & Hbody).
      exists (String c g), body. split; [reflexivity |]. split; [| assumption].
      simpl. now rewrite Hb, Hg.
Qed.

Lemma rmatch_object (m post : string) :
  one_level_object m -> rmatch regex (m ++ post) Some = Some post.
Proof.
  intros (body & -> & Hbody).
  rewrite rmatch_regex. simpl.
  rewrite append_assoc. now apply scan_pieces.
Qed.

Lemma rmatch_object_inv (s rest : string) :
  rmatch regex s Some = Some rest ->
  exists m, s = m ++ rest /\ one_level_object m.
Proof.
  rewrite rmatch_regex. destruct s as [|c s]; [discriminate |].
  destruct (Ascii.eqb_spec c lbrace) as [-> |]; [| discriminate].
  intros H. destruct (proj1 (scan_sound s) rest H) as (body & -> & Hbody).
  exists ("{" ++ body ++ "}"). split.
  - simpl. now rewrite append_assoc.
  - now exists body.
Qed.

Lemma take_match (m rest : string) :
  Str.take (String.length (m ++ rest) - String.length rest) (m ++ rest) = m.
Proof.
  rewrite length_append.
  replace (String.length m + String.length rest - String.length rest)
    with (String.length m) by lia.
  apply take_append.
Qed.

(** The search returns the first one-level object text of its input, and
    none only if the input has none. *)
Lemma first_match_spec (content : string) :
  match first_match regex content with
  | Some m => first_object content m
  | None => has_no_object content
  end.
Proof.
  induction content as [|c s IH].
  - simpl. intros pre m post H (body & -> & _).
    destruct pre; discriminate.
  - cbn [first_match].
    destruct (rmatch regex (String c s) Some) as [rest|] eqn:Hm.
    + destruct (rmatch_object_inv _ Hm) as (m & Hs & Hobj).
      rewrite Hs in *. rewrite take_match.
      exists "", rest. split; [reflexivity |]. split; [assumption |].
      intros pre' m' post' Heq Hobj'.
      destruct pre' as [|x pre']; [right | left; simpl; lia].
      split; [reflexivity |].
      simpl in Heq. rewrite Heq in Hm.
      rewrite (rmatch_object post' Hobj') in Hm. inversion Hm; subst rest.
      rewrite <- (take_match m post'), <- (take_match m' post').
      now rewrite Heq.
    + assert (Hnone : forall m post, String c s = m ++ post -> ~ one_level_object m).
      { intros m post Heq Hobj. rewrite Heq, (rmatch_object post Hobj) in Hm.
        discriminate. }
      destruct (first_match regex s) as [m|].
      * destruct IH as (pre & post & -> & Hobj & Hfirst).
        exists (String c pre), post. split; [reflexivity |]. split; [assumption |].
        intros pre' m' post' Heq Hobj'.
        destruct pre' as [|x pre'].
        -- exfalso. exact (Hnone m' post' Heq Hobj').
        -- simpl in Heq. inversion Heq; subst x.
           destruct (Hfirst pre' m' post' H1 Hobj') as [Hlt | [-> ->]].
           ++ left. simpl. lia.
           ++ now right.
      * intros pre m post Heq Hobj.
        destruct pre as [|x pre].
        -- exact (Hnone m post Heq Hobj).
        -- simpl in Heq. inversion Heq. exact (IH pre m post H1 Hobj).
Qed.

Lemma is_one_level_object_iff (s : string) :
  is_one_level_object s = true <-> one_level_object s.
Proof.
  split.
  - destruct s as [|c s]; [discriminate |]. unfold is_one_level_object.
    destruct (Ascii.eqb_spec c lbrace) as [-> |]; [| discriminate].
    destruct (scan false s) as [rest|] eqn:Hs; [| discriminate].
    destruct rest; [| discriminate]. intros _.
    destruct (proj1 (scan_sound s) _ Hs) as (body & -> & Hbody).
    now exists body.
  - intros (body & -> & Hbody).
    change (is_one_level_object ("{" ++ body ++ "}"))
      with (Ascii.eqb lbrace lbrace &&
            match scan false (body ++ "}" ++ "") with
            | Some rest => Str.is_empty rest
            | None => false
            end).
    now rewrite scan_pieces.
Qed.

Lemma includes_char_cons (c d : ascii) (s : string) :
  Str.includes (String c s) (String d "") = Ascii.eqb d c || Str.includes s (String d "").
Proof.
  rewrite includes_cons. f_equal. simpl.
  destruct (ascii_dec d c) as [-> | Hn].
  - rewrite Ascii.eqb_refl. now destruct s.
  - apply Ascii.eqb_neq in Hn. now rewrite Hn.
Qed.

(** Input before the first opening brace is skipped. *)
Lemma first_match_skip (pre s : string) :
  Str.includes pre "{" = false ->
  first_match regex (pre ++ s) = first_match regex s.
Proof.
  induction pre as [|c pre IH]; [reflexivity |].
  rewrite includes_char_cons. intros H. apply orb_false_iff in H as [Hc Hpre].
  change (String c pre ++ s) with (String c (pre ++ s)).
  cbn [first_match]. rewrite rmatch_regex.
  rewrite Ascii.eqb_sym in Hc. unfold lbrace. rewrite Hc. now apply IH.
Qed.

Lemma extractJson_embedded (pre s post : string) :
  one_level_object s -> Str.includes pre "{" = false ->
  extractJson (pre ++ s ++ post) = s.
Proof.
  intros Hs Hpre. unfold extractJson. rewrite first_match_skip by assumption.
  pose proof (rmatch_object post Hs) as Hm.
  destruct s as [|c s]; [destruct Hs as (b & Hb & _); discriminate |].
  change (String c s ++ post) with (String c (s ++ post)) in *.
  cbn [first_match]. rewrite Hm.
  change (String c (s ++ post)) with (String c s ++ post).
  now rewrite take_match.
Qed.

Lemma object_has_braces (pre m post : string) :
  one_level_object m ->
  Str.includes (pre ++ m ++ post) "{" = true /\
  Str.includes (pre ++ m ++ post) "}" = true.
Proof.
  intros (body & -> & _). split; apply includes_iff.
  - exists pre, (body ++ "}" ++ post). now rewrite !append_assoc.
  - exists (pre ++ "{" ++ body), post. now rewrite !append_assoc.
Qed.

Lemma extractJson_cases (content : string) :
  (exists m, first_object content m /\ extractJson content = m)
  \/ (has_no_object content /\ extractJson content = "").
Proof.
  unfold extractJson.
  pose proof (first_match_spec content) as H.
  destruct (first_match regex content) as [m|]; [left | right]; eauto.
Qed.

(** C9. For every input, [extractJson] returns the first substring that
    starts with an opening brace, ends with the brace matching it and is
    balanced to at most one level of nesting, or the empty string when the
    input has no such substring; so input lacking an opening or a closing
    brace yields the empty string, and a one-level object text [s] is
    returned exactly from ["noise" ++ s ++ "noise"] (and from between any
    text without an opening brace and any text at all). *)
Theorem extractJson_first_object :
  (forall content,
     (exists m, first_object content m /\ extractJson content = m)
     \/ (has_no_object content /\ extractJson content = "")) /\
  (forall content,
     Str.includes content "{" = false \/ Str.includes content "}" = false ->
     extractJson content = "") /\
  (forall s, one_level_object s -> extractJson ("noise" ++ s ++ "noise") = s) /\
  (forall pre s post,
     one_level_object s -> Str.includes pre "{" = false ->
     extractJson (pre ++ s ++ post) = s).
Proof.
  split; [exact extractJson_cases |]. split; [| split].
  - intros content Hno.
    destruct (extractJson_cases content)
      as [(m & (pre & post & -> & Hobj & _) & _) | [_ H]]; [| exact H].
    destruct (object_has_braces pre post Hobj) as [Hl Hr].
    destruct Hno as [Hno | Hno]; congruence.
  - intros s Hs. now apply extractJson_embedded.
  - intros pre s post. apply extractJson_embedded.
Qed.

Lemma extractJson_first_object_witness :
  extractJson "no object here }" = "" /\
  extractJson ("noise" ++ "{a:{b:1},c:2}" ++ "noise") = "{a:{b:1},c:2}" /\
  extractJson ("} say " ++ "{x:{}}" ++ " {y}") = "{x:{}}".
Proof.
  destruct extractJson_first_object as (_ & Hnone & Hnoise & Hany).
  split; [| split].
  - apply Hnone. left. reflexivity.
  - apply Hnoise. apply is_one_level_object_iff. reflexivity.
  - apply Hany; [apply is_one_level_object_iff |]; reflexivity.
Defined.

(** ** The safety filter *)

Lemma lower_char_idem (c : ascii) :
  Str.lower_char (Str.lower_char c) = Str.lower_char c.
Proof. destruct c as [[] [] [] [] [] [] [] []]; reflexivity. Qed.

Lemma toLowerCase_idem (s : string) :
  Str.toLowerCase (Str.toLowerCase s) = Str.toLowerCase s.
Proof.
  induction s as [|c s IH]; simpl; [reflexivity |].
  now rewrite lower_char_idem, IH.
Qed.

Lemma has_prohibited_keyword_iff (s : string) :
  has_prohibited_keyword s = true <->
  exists keyword pre post,
    In keyword prohibitedKeywords /\ Str.toLowerCase s = pre ++ keyword ++ post.
Proof.
  unfold has_prohibited_keyword. rewrite existsb_exists. split.
  - intros (k & Hin & Hk). apply includes_iff in Hk as (pre & post & Hk).
    now exists k, pre, post.
  - intros (k & pre & post & Hin & Hk). exists k. split; [assumption |].
    apply includes_iff. now exists pre, post.
Qed.

Lemma isProhibitedQuery_string (s : string) :
  isProhibitedQuery (Some (JString s)) = Returns (has_prohibited_keyword s).
Proof. destruct s; reflexivity. Qed.

(** ** Strings with wide code units *)

Lemma wide_prefix_iff (k u : list N) :
  Wide.prefix k u = true <-> exists post, u = (k ++ post)%list.
Proof.
  revert u; induction k as [|x k IH]; intros u; simpl.
  - split; [intros _; now exists u | reflexivity].
  - destruct u as [|y u].
    + split; [discriminate | intros [post H]; discriminate].
    + rewrite andb_true_iff, N.eqb_eq, IH. split.
      * intros [-> [post ->]]. now exists post.
      * intros [post H]. inversion H. split; [reflexivity | now exists post].
Qed.

Lemma wide_includes_iff (u k : list N) :
  Wide.includes u k = true <-> exists pre post, u = (pre ++ k ++ post)%list.
Proof.
  induction u as [|c u IH]; cbn [Wide.includes].
  - rewrite orb_false_r, wide_prefix_iff. split.
    + intros [post H]. now exists [], post.
    + intros [pre [post H]]. destruct pre; simpl in H; [now exists post | discriminate].
  - rewrite orb_true_iff, wide_prefix_iff, IH. split.
    + intros [[post H] | [pre [post H]]].
      * now exists [], post.
      * exists (c :: pre), post. simpl. now rewrite H.
    + intros [pre [post H]]. destruct pre as [|x pre]; simpl in H.
      * left. now exists post.
      * right. inversion H. now exists pre, post.
Qed.

Lemma has_prohibited_keyword_wide_iff (u : wide) :
  has_prohibited_keyword_wide u = true <->
  exists keyword pre post,
    In keyword prohibitedKeywords /\
    Wide.toLowerCase u = (pre ++ Wide.of_string keyword ++ post)%list.
Proof.
  unfold has_prohibited_keyword_wide. rewrite existsb_exists. split.
  - intros (k & Hin & Hk). apply wide_includes_iff in Hk as (pre & post & Hk).
    now exists k, pre, post.
  - intros (k & pre & post & Hin & Hk). exists k. split; [assumption |].
    apply wide_includes_iff. now exists pre, post.
Qed.

Lemma isProhibitedQuery_wide (u : wide) :
  isProhibitedQuery (Some (JWide u)) = Returns (has_prohibited_keyword_wide u).
Proof. destruct u; reflexivity. Qed.

(** On a string of the 8-bit alphabet the two forms of the filter agree. *)
Lemma N_of_ascii_eqb (a b : ascii) :
  N.eqb (N_of_ascii a) (N_of_ascii b) = if ascii_dec a b then true else false.
Proof.
  destruct (ascii_dec a b) as [-> | Hab]; [apply N.eqb_refl |].
  apply N.eqb_neq. intros H. apply Hab.
  now rewrite <- (ascii_N_embedding a), <- (ascii_N_embedding b), H.
Qed.

Lemma of_string_prefix (k s : string) :
  Wide.prefix (Wide.of_string k) (Wide.of_string s) = String.prefix k s.
Proof.
  revert s; induction k as [|x k IH]; intros [|y s]; simpl; try reflexivity.
  rewrite N_of_ascii_eqb, IH. now destruct (ascii_dec x y).
Qed.

Lemma of_string_includes (s k : string) :
  Wide.includes (Wide.of_string s) (Wide.of_string k) = Str.includes s k.
Proof.
  induction s as [|c s IH].
  - rewrite includes_nil. cbn [Wide.of_string Wide.includes].
    now rewrite <- of_string_prefix.
  - rewrite includes_cons. cbn [Wide.of_string Wide.includes].
    now rewrite IH, <- of_string_prefix.
Qed.

Lemma of_string_toLowerCase (s : string) :
  Wide.toLowerCase (Wide.of_string s) = Wide.of_string (Str.toLowerCase s).
Proof.
  induction s as [|c s IH]; [reflexivity |].
  cbn [Wide.of_string Str.toLowerCase Wide.toLowerCase flat_map].
  fold (Wide.toLowerCase (Wide.of_string s)). rewrite IH.
  unfold Wide.lower_unit.
  pose proof (N_ascii_bounded c) as Hc. apply N.ltb_lt in Hc. rewrite Hc.
  now rewrite ascii_N_embedding.
Qed.

Lemma has_prohibited_keyword_wide_of_string (s : string) :
  has_prohibited_keyword_wide (Wide.of_string s) = has_prohibited_keyword s.
Proof.
  unfold has_prohibited_keyword_wide, has_prohibited_keyword.
  rewrite of_string_toLowerCase.
  induction prohibitedKeywords as [|k l IH]; [reflexivity |].
  cbn [existsb]. now rewrite of_string_includes, IH.
Qed.

(** The values [!v] holds of. *)
Lemma falsy_iff (v : value wide) :
  falsy v = true <->
  v = undefined \/ v = Some JNull \/ v = Some (JBool false) \/
  v = Some (JString "") \/ v = Some (JWide []) \/
  exists t, v = Some (JNumber t) /\ number_is_zero t = true.
Proof.
  split.
  - destruct v as [[|[|]|t|[|c t]|[|c t]|l|o]|]; simpl; try discriminate; intros H;
      try tauto.
    do 5 right. now exists t.
  - intros [-> | [-> | [-> | [-> | [-> | (t & -> & H)]]]]]; try reflexivity.
    exact H.
Qed.

(** C7. On a string, [isProhibitedQuery] returns true exactly when the
    lower-cased input contains one of the 33 listed keywords as a substring;
    it therefore does not distinguish upper from lower case (both spellings
    of DROP TABLE x are prohibited), returns false on the empty string, on
    [undefined], on [null] and on every other falsy value, and returns false
    on a read query that contains none of the keywords.  The falsy values
    are [undefined], [null], [false], the empty string and the numbers whose
    double is zero: the zeros as they are written, and the numbers that
    underflow, up to [2 ^ -1075] included; on any other number the filter
    throws.  The first statement holds of a string with wide code units as
    well. *)
Theorem isProhibitedQuery_keyword_substring :
  (forall s,
     isProhibitedQuery (Some (JString s)) = Returns true <->
     exists keyword pre post,
       In keyword prohibitedKeywords /\
       Str.toLowerCase s = pre ++ keyword ++ post) /\
  (forall s,
     isProhibitedQuery (Some (JString s)) = Returns false <->
     ~ exists keyword pre post,
         In keyword prohibitedKeywords /\
         Str.toLowerCase s = pre ++ keyword ++ post) /\
  (forall s,
     isProhibitedQuery (Some (JString (Str.toLowerCase s)))
     = isProhibitedQuery (Some (JString s))) /\
  List.length prohibitedKeywords = 33 /\
  isProhibitedQuery (Some (JString "DROP TABLE x")) = Returns true /\
  isProhibitedQuery (Some (JString "drop table x")) = Returns true /\
  isProhibitedQuery (Some (JString "")) = Returns false /\
  isProhibitedQuery undefined = Returns false /\
  isProhibitedQuery (Some JNull) = Returns false /\
  isProhibitedQuery (Some (JString "SELECT name FROM users WHERE id = $1"))
  = Returns false /\
  (forall v, falsy v = true -> isProhibitedQuery v = Returns false) /\
  (forall v,
     falsy v = true <->
     v = undefined \/ v = Some JNull \/ v = Some (JBool false) \/
     v = Some (JString "") \/ v = Some (JWide []) \/
     exists t, v = Some (JNumber t) /\ number_is_zero t = true) /\
  Forall (fun t => isProhibitedQuery (Some (JNumber t)) = Returns false)
         ["0"; "-0"; "0.0"; "0e5"; "0E-7"; "1e-400"; "-1e-400"; "1e-324"; "0.1e-400";
          "2.4703282292062327e-324";
          NilEmpty.string_of_uint (N.to_uint (5 ^ 1075)) ++ "e-1075"] /\
  Forall (fun t => exists e, isProhibitedQuery (Some (JNumber t)) = Throws e)
         ["5"; "0.5"; "0.000001"; "1e400"; "1e-323"; "3e-324"; "2.5e-324";
          "2.4703282292062328e-324";
          NilEmpty.string_of_uint (N.to_uint (5 ^ 1075 + 1)) ++ "e-1075"] /\
  (forall u,
     isProhibitedQuery (Some (JWide u)) = Returns true <->
     exists keyword pre post,
       In keyword prohibitedKeywords /\
       Wide.toLowerCase u = (pre ++ Wide.of_string keyword ++ post)%list) /\
  (forall u,
     isProhibitedQuery (Some (JWide u)) = Returns false <->
     ~ exists keyword pre post,
         In keyword prohibitedKeywords /\
         Wide.toLowerCase u = (pre ++ Wide.of_string keyword ++ post)%list).
Proof.
  split; [| split; [| split]].
  - intros s. rewrite isProhibitedQuery_string, <- has_prohibited_keyword_iff.
    split; [intros H; now inversion H | now intros ->].
  - intros s. rewrite isProhibitedQuery_string, <- has_prohibited_keyword_iff.
    destruct (has_prohibited_keyword s); split; congruence.
  - intros s. rewrite !isProhibitedQuery_string. unfold has_prohibited_keyword.
    now rewrite toLowerCase_idem.
  - do 7 (split; [vm_compute; reflexivity |]).
    split; [intros v Hv; unfold isProhibitedQuery; now rewrite Hv |].
    split; [exact falsy_iff |].
    split; [repeat (constructor; [vm_compute; reflexivity |]); constructor |].
    split; [repeat (constructor; [eexists; vm_compute; reflexivity |]); constructor |].
    split.
    + intros u. rewrite isProhibitedQuery_wide, <- has_prohibited_keyword_wide_iff.
      split; [intros H; now inversion H | now intros ->].
    + intros u. rewrite isProhibitedQuery_wide, <- has_prohibited_keyword_wide_iff.
      destruct (has_prohibited_keyword_wide u); split; congruence.
Qed.

Lemma isProhibitedQuery_keyword_substring_witness :
  isProhibitedQuery (Some (JString "Select * From PG_Tables")) = Returns true /\
  isProhibitedQuery (Some (JBool false)) = Returns false /\
  isProhibitedQuery (Some (JNumber "1e-400")) = Returns false.
Proof.
  destruct isProhibitedQuery_keyword_substring
    as (Hstring & _ & _ & _ & _ & _ & _ & _ & _ & _ & Hfalsy & _).
  split; [| split].
  - apply Hstring.
    exists "pg_tables", "select * from ", "". split; [| reflexivity].
    unfold prohibitedKeywords. simpl. tauto.
  - apply Hfalsy. reflexivity.
  - apply Hfalsy. vm_compute. reflexivity.
Defined.

(** ** The fuel of the parser *)

Lemma skip_ws_length (s : string) :
  String.length (JSON.skip_ws s) <= String.length s.
Proof.
  induction s as [|c s IH]; simpl; [lia |].
  destruct (JSON.is_ws c); simpl; lia.
Qed.

Lemma skip_ws_cons (s r : string) (c : ascii) :
  JSON.skip_ws s = String c r -> String.length r < String.length s.
Proof.
  intros H. pose proof (skip_ws_length s) as L. rewrite H in L. simpl in L. lia.
Qed.

Lemma cons_unit_length (u : N) (p : option (list N * string)) (t : list N)
      (rest : string) :
  JSON.cons_unit u p = Some (t, rest) ->
  exists t', p = Some (t', rest).
Proof.
  destruct p as [[t' rest']|]; simpl; [| discriminate].
  intros H; inversion H; subst; eauto.
Qed.

Lemma parse_chars_length (s : string) :
  forall t rest, JSON.parse_chars s = Some (t, rest) ->
  String.length rest < String.length s.
Proof.
  assert (H : forall n s, String.length s <= n ->
            forall t rest, JSON.parse_chars s = Some (t, rest) ->
            String.length rest < String.length s).
  { clear s. induction n as [|n IH]; intros s Hn t rest.
    { destruct s; [discriminate | simpl in Hn; lia]. }
    destruct s as [|c s]; [discriminate |].
    cbn [JSON.parse_chars]. simpl in Hn.
    destruct (Ascii.eqb c JSON.dquote).
    { intros H; inversion H; subst; simpl; lia. }
    destruct (Ascii.eqb c JSON.backslash).
    - destruct s as [|e s]; [discriminate |].
      destruct (JSON.simple_escape e).
      + intros H. apply cons_unit_length in H as [t' H].
        apply IH in H; simpl in *; lia.
      + destruct (Ascii.eqb e "u"); [| discriminate].
        destruct s as [|h1 [|h2 [|h3 [|h4 r]]]]; try discriminate.
        destruct (JSON.hex4 h1 h2 h3 h4) as [k|]; [| discriminate].
        intros H. apply cons_unit_length in H as [t' H].
        apply IH in H; simpl in *; lia.
    - destruct (nat_of_ascii c <? 32); [discriminate |].
      intros H. apply cons_unit_length in H as [t' H].
      apply IH in H; simpl in *; lia. }
  intros t rest. now apply (H (String.length s)).
Qed.

Lemma digits_length (s : string) :
  String.length (snd (JSON.digits s)) <= String.length s.
Proof.
  induction s as [|c s IH]; simpl; [lia |].
  destruct (JSON.is_digit c); [| simpl; lia].
  destruct (JSON.digits s); simpl in *; lia.
Qed.

Lemma digits_rest (s d r : string) :
  JSON.digits s = (d, r) -> String.length r <= String.length s.
Proof. intros H. pose proof (digits_length s) as L. now rewrite H in L. Qed.

Lemma parse_int_length (s t rest : string) :
  JSON.parse_int s = Some (t, rest) -> String.length rest < String.length s.
Proof.
  destruct s as [|c r]; [discriminate |]. unfold JSON.parse_int.
  destruct (Ascii.eqb c "0").
  - intros H; inversion H; subst; simpl; lia.
  - destruct (JSON.is_digit c); [| discriminate].
    destruct (JSON.digits r) as [d r'] eqn:E. apply digits_rest in E.
    intros H; inversion H; subst; simpl; lia.
Qed.

Lemma parse_frac_length (s t rest : string) :
  JSON.parse_frac s = Some (t, rest) -> String.length rest <= String.length s.
Proof.
  destruct s as [|c r]; unfold JSON.parse_frac.
  - intros H; inversion H; subst; simpl; lia.
  - destruct (Ascii.eqb c ".").
    + destruct (JSON.digits r) as [d r'] eqn:E. apply digits_rest in E.
      destruct d; [discriminate |].
      intros H; inversion H; subst; simpl; lia.
    + intros H; inversion H; subst; simpl; lia.
Qed.

Lemma parse_exp_length (s t rest : string) :
  JSON.parse_exp s = Some (t, rest) -> String.length rest <= String.length s.
Proof.
  destruct s as [|c r]; unfold JSON.parse_exp.
  - intros H; inversion H; subst; simpl; lia.
  - destruct (Ascii.eqb c "e" || Ascii.eqb c "E").
    + destruct r as [|g r0].
      * simpl. discriminate.
      * destruct (Ascii.eqb g "+" || Ascii.eqb g "-").
        -- destruct (JSON.digits r0) as [d r'] eqn:E. apply digits_rest in E.
           destruct d; [discriminate |].
           intros H; inversion H; subst; simpl; lia.
        -- destruct (JSON.digits (String g r0)) as [d r'] eqn:E.
           apply digits_rest in E.
           destruct d; [discriminate |].
           intros H; inversion H; subst; simpl in *; lia.
    + intros H; inversion H; subst; simpl; lia.
Qed.

Lemma parse_number_length (s t rest : string) :
  JSON.parse_number s = Some (t, rest) -> String.length rest < String.length s.
Proof.
  unfold JSON.parse_number.
  assert (Hs1 : forall s1, String.length s1 <= String.length s ->
     forall sign,
     match JSON.parse_int s1 with
     | Some (i, s2) =>
         match JSON.parse_frac s2 with
         | Some (f, s3) =>
             match JSON.parse_exp s3 with
             | Some (e, s4) => Some (sign ++ i ++ f ++ e, s4)
             | None => None
             end
         | None => None
         end
     | None => None
     end = Some (t, rest) -> String.length rest < String.length s).
  { intros s1 Hlen sign.
    destruct (JSON.parse_int s1) as [[i s2]|] eqn:E1; [| discriminate].
    destruct (JSON.parse_frac s2) as [[f s3]|] eqn:E2; [| discriminate].
    destruct (JSON.parse_exp s3) as [[e s4]|] eqn:E3; [| discriminate].
    apply parse_int_length in E1. apply parse_frac_length in E2.
    apply parse_exp_length in E3.
    intros H; inversion H; subst. lia. }
  destruct s as [|c r]; [apply Hs1; lia |].
  destruct (Ascii.eqb c "-"); apply Hs1; simpl; lia.
Qed.

Lemma drop_length (n : nat) (s : string) :
  String.length (Str.drop n s) = String.length s - n.
Proof.
  revert s; induction n as [|n IH]; intros [|c s]; simpl; auto.
Qed.

Lemma literal_length (word : string) (v x : parsed) (s rest : string) :
  word <> "" -> JSON.literal word v s = Some (x, rest) ->
  String.length rest < String.length s.
Proof.
  intros Hw. unfold JSON.literal.
  destruct (String.prefix word s) eqn:E; [| discriminate].
  apply prefix_iff in E as [post ->].
  intros H; inversion H; subst. rewrite drop_length, length_append.
  destruct word; [congruence | simpl; lia].
Qed.

(** Whatever is parsed consumes input. *)
Lemma parse_length (fuel : nat) :
  (forall s v rest,
     JSON.parse_value fuel s = Some (v, rest) ->
     String.length rest < String.length s) /\
  (forall acc s v rest,
     JSON.parse_members fuel acc s = Some (v, rest) ->
     String.length rest < String.length s) /\
  (forall acc s v rest,
     JSON.parse_elements fuel acc s = Some (v, rest) ->
     String.length rest < String.length s).
Proof.
  induction fuel as [|n (IHv & IHm & IHe)]; [repeat split; discriminate |].
  split; [| split].
  - intros s v rest. cbn [JSON.parse_value].
    destruct (JSON.skip_ws s) as [|c r] eqn:E; [discriminate |].
    apply skip_ws_cons in E.
    destruct (Ascii.eqb c lbrace).
    { destruct (JSON.skip_ws r) as [|d r'] eqn:E2; [discriminate |].
      apply skip_ws_cons in E2.
      destruct (Ascii.eqb d rbrace); intros H;
        [inversion H; subst; lia | apply IHm in H; lia]. }
    destruct (Ascii.eqb c "[").
    { destruct (JSON.skip_ws r) as [|d r'] eqn:E2; [discriminate |].
      apply skip_ws_cons in E2.
      destruct (Ascii.eqb d "]"); intros H;
        [inversion H; subst; lia | apply IHe in H; lia]. }
    destruct (Ascii.eqb c JSON.dquote).
    { destruct (JSON.parse_chars r) as [[t r']|] eqn:E2; [| discriminate].
      apply parse_chars_length in E2. intros H; inversion H; subst; lia. }
    destruct (Ascii.eqb c "t").
    { intros H. apply literal_length in H; [simpl in H; lia | discriminate]. }
    destruct (Ascii.eqb c "f").
    { intros H. apply literal_length in H; [simpl in H; lia | discriminate]. }
    destruct (Ascii.eqb c "n").
    { intros H. apply literal_length in H; [simpl in H; lia | discriminate]. }
    destruct (JSON.parse_number (String c r)) as [[t r']|] eqn:E2; [| discriminate].
    apply parse_number_length in E2. simpl in E2.
    intros H; inversion H; subst; lia.
  - intros acc s v rest. cbn [JSON.parse_members].
    destruct (JSON.skip_ws s) as [|c r] eqn:E1; [discriminate |].
    apply skip_ws_cons in E1.
    destruct (Ascii.eqb c JSON.dquote); [| discriminate].
    destruct (JSON.parse_chars r) as [[key r1]|] eqn:E2; [| discriminate].
    apply parse_chars_length in E2.
    destruct (JSON.skip_ws r1) as [|c2 r2] eqn:E3; [discriminate |].
    apply skip_ws_cons in E3.
    destruct (Ascii.eqb c2 ":"); [| discriminate].
    destruct (JSON.parse_value n r2) as [[v' r3]|] eqn:E4; [| discriminate].
    apply IHv in E4.
    destruct (JSON.skip_ws r3) as [|c4 r4] eqn:E5; [discriminate |].
    apply skip_ws_cons in E5.
    destruct (Ascii.eqb c4 ","); [intros H; apply IHm in H; lia |].
    destruct (Ascii.eqb c4 rbrace); [| discriminate].
    intros H; inversion H; subst; lia.
  - intros acc s v rest. cbn [JSON.parse_elements].
    destruct (JSON.parse_value n s) as [[v' r]|] eqn:E1; [| discriminate].
    apply IHv in E1.
    destruct (JSON.skip_ws r) as [|c r'] eqn:E2; [discriminate |].
    apply skip_ws_cons in E2.
    destruct (Ascii.eqb c ","); [intros H; apply IHe in H; lia |].
    destruct (Ascii.eqb c "]"); [| discriminate].
    intros H; inversion H; subst; lia.
Qed.

(** One step of each parser depends on the fuel only through the calls it
    makes, all on shorter input except the first value of an array. *)
Lemma parse_value_S_ext (n n' : nat) (s : string) :
  (forall acc r, String.length r < String.length s ->
     JSON.parse_members n acc r = JSON.parse_members n' acc r) ->
  (forall acc r, String.length r < String.length s ->
     JSON.parse_elements n acc r = JSON.parse_elements n' acc r) ->
  JSON.parse_value (S n) s = JSON.parse_value (S n') s.
Proof.
  intros Hm He. cbn [JSON.parse_value].
  destruct (JSON.skip_ws s) as [|c r] eqn:E; [reflexivity |].
  apply skip_ws_cons in E.
  rewrite (Hm [] r E), (He [] r E). reflexivity.
Qed.

Lemma parse_members_S_ext (n n' : nat) (acc : props wide) (s : string) :
  (forall r, String.length r < String.length s ->
     JSON.parse_value n r = JSON.parse_value n' r) ->
  (forall acc' r, String.length r < String.length s ->
     JSON.parse_members n acc' r = JSON.parse_members n' acc' r) ->
  JSON.parse_members (S n) acc s = JSON.parse_members (S n') acc s.
Proof.
  intros Hv Hm. cbn [JSON.parse_members].
  destruct (JSON.skip_ws s) as [|c r] eqn:E1; [reflexivity |].
  apply skip_ws_cons in E1.
  destruct (Ascii.eqb c JSON.dquote); [| reflexivity].
  destruct (JSON.parse_chars r) as [[key r1]|] eqn:E2; [| reflexivity].
  apply parse_chars_length in E2.
  destruct (JSON.skip_ws r1) as [|c2 r2] eqn:E3; [reflexivity |].
  apply skip_ws_cons in E3.
  destruct (Ascii.eqb c2 ":"); [| reflexivity].
  rewrite <- (Hv r2) by lia.
  destruct (JSON.parse_value n r2) as [[v' r3]|] eqn:E4; [| reflexivity].
  apply (proj1 (parse_length n)) in E4.
  destruct (JSON.skip_ws r3) as [|c4 r4] eqn:E5; [reflexivity |].
  apply skip_ws_cons in E5.
  rewrite (Hm (Obj.define acc (name_of key) v') r4) by lia. reflexivity.
Qed.

Lemma parse_elements_S_ext (n n' : nat) (acc : list parsed) (s : string) :
  JSON.parse_value n s = JSON.parse_value n' s ->
  (forall acc' r, String.length r < String.length s ->
     JSON.parse_elements n acc' r = JSON.parse_elements n' acc' r) ->
  JSON.parse_elements (S n) acc s = JSON.parse_elements (S n') acc s.
Proof.
  intros Hv He. cbn [JSON.parse_elements]. rewrite <- Hv.
  destruct (JSON.parse_value n s) as [[v' r]|] eqn:E1; [| reflexivity].
  apply (proj1 (parse_length n)) in E1.
  destruct (JSON.skip_ws r) as [|c r'] eqn:E2; [reflexivity |].
  apply skip_ws_cons in E2.
  rewrite (He (acc ++ [v'])%list r') by lia. reflexivity.
Qed.

(** Fuel above twice the length of the input is never used. *)
Lemma parse_fuel_step (n : nat) :
  (forall s, 2 * String.length s + 1 <= n ->
     JSON.parse_value (S n) s = JSON.parse_value n s) /\
  (forall acc s, 2 * String.length s + 1 <= n ->
     JSON.parse_members (S n) acc s = JSON.parse_members n acc s) /\
  (forall acc s, 2 * String.length s + 2 <= n ->
     JSON.parse_elements (S n) acc s = JSON.parse_elements n acc s).
Proof.
  induction n as [|k (IHv & IHm & IHe)]; [repeat split; intros; lia |].
  split; [| split].
  - intros s Hs. apply parse_value_S_ext.
    + intros acc r Hr. apply IHm. lia.
    + intros acc r Hr. apply IHe. lia.
  - intros acc s Hs. apply parse_members_S_ext.
    + intros r Hr. apply IHv. lia.
    + intros acc' r Hr. apply IHm. lia.
  - intros acc s Hs. apply parse_elements_S_ext.
    + apply IHv. lia.
    + intros acc' r Hr. apply IHe. lia.
Qed.

(** [JSON.parse] answers what the grammar determines: more fuel than it
    gives its parser changes nothing. *)
Lemma parse_value_fuel (s : string) (extra : nat) :
  JSON.parse_value (2 * String.length s + 2 + extra) s
  = JSON.parse_value (2 * String.length s + 2) s.
Proof.
  induction extra as [|d IH]; [now rewrite Nat.add_0_r |].
  rewrite Nat.add_succ_r, <- IH.
  apply (proj1 (parse_fuel_step _)). lia.
Qed.

(** ** Parsed replies *)

Lemma parse_members_object (fuel : nat) :
  forall acc s v rest,
    JSON.parse_members fuel acc s = Some (v, rest) -> exists o, v = JObject o.
Proof.
  induction fuel as [|n IH]; intros acc s v rest; [discriminate |].
  cbn [JSON.parse_members].
  repeat match goal with
         | |- context [match ?x with _ => _ end] =>
             lazymatch x with
             | JSON.parse_members _ _ _ => fail
             | _ => destruct x eqn:?
             end
         end; try discriminate.
  - apply IH.
  - intros H; inversion H; eauto.
Qed.

Lemma parse_value_brace (fuel : nat) (r : string) (v : parsed) (rest : string) :
  JSON.parse_value fuel (String lbrace r) = Some (v, rest) ->
  exists o, v = JObject o.
Proof.
  destruct fuel as [|n]; [discriminate |].
  cbn [JSON.parse_value].
  change (JSON.skip_ws (String lbrace r)) with (String lbrace r).
  change (Ascii.eqb lbrace lbrace) with true. cbv iota.
  destruct (JSON.skip_ws r) as [|d r']; [discriminate |].
  destruct (Ascii.eqb d rbrace).
  - intros H; inversion H; eauto.
  - apply parse_members_object.
Qed.

Lemma looks_like_object_brace (results : string) :
  looks_like_object results = true -> exists r, results = String lbrace r.
Proof.
  unfold looks_like_object. intros H.
  apply andb_true_iff in H as [H _]. apply andb_true_iff in H as [_ H].
  apply prefix_iff in H as [post ->]. now exists post.
Qed.

(** A reply that passes the brace test parses to an object or not at all. *)
Lemma JSON_parse_object (results : string) (v : parsed) :
  looks_like_object results = true -> JSON.parse results = Some v ->
  exists o, v = JObject o.
Proof.
  intros H. apply looks_like_object_brace in H as [r ->].
  unfold JSON.parse.
  destruct (JSON.parse_value _ _) as [[v' rest]|] eqn:Hp; [| discriminate].
  destruct (Str.is_empty _); [| discriminate].
  intros Hv; inversion Hv; subst. eapply parse_value_brace; eauto.
Qed.

(** ** Objects *)

Lemma is_name_iff {W} (k0 : name W) (k : string) :
  Obj.is_name k0 k = true <-> k0 = Name k.
Proof.
  destruct k0 as [s | u]; simpl.
  - rewrite String.eqb_eq. split; congruence.
  - split; discriminate.
Qed.

Lemma is_name_refl {W} (k : string) : Obj.is_name (@Name W k) k = true.
Proof. now apply is_name_iff. Qed.

Lemma is_name_other {W} (k0 : name W) (k k' : string) :
  k <> k' -> Obj.is_name k0 k = true -> Obj.is_name k0 k' = false.
Proof.
  intros Hk H. apply is_name_iff in H as ->. simpl.
  now apply String.eqb_neq.
Qed.

Lemma get_set_same {W} (o : props W) (k : string) (v : json W) :
  Obj.get (Obj.set o k v) k = Some v.
Proof.
  induction o as [|[k' v'] o IH]; simpl.
  - now rewrite String.eqb_refl.
  - destruct (Obj.is_name k' k) eqn:E; simpl; now rewrite E.
Qed.

Lemma get_set_other {W} (o : props W) (k k' : string) (v : json W) :
  k <> k' -> Obj.get (Obj.set o k v) k' = Obj.get o k'.
Proof.
  intros Hk. induction o as [|[k0 v0] o IH]; simpl.
  - apply String.eqb_neq in Hk. now rewrite Hk.
  - destruct (Obj.is_name k0 k) eqn:E; simpl.
    + now rewrite (is_name_other k0 Hk E).
    + now rewrite IH.
Qed.

Lemma wide_eqb_eq (a b : wide) : Wide.eqb a b = true <-> a = b.
Proof.
  revert b; induction a as [|x a IH]; intros [|y b]; simpl;
    try (split; [discriminate | congruence]); [tauto |].
  rewrite andb_true_iff, N.eqb_eq, IH. split; [intros [-> ->] | intros H; inversion H]; auto.
Qed.

Lemma name_eqb_eq (a b : name wide) : Obj.name_eqb a b = true <-> a = b.
Proof.
  destruct a as [s | u], b as [t | v]; simpl;
    try (split; [discriminate | congruence]).
  - rewrite String.eqb_eq. split; congruence.
  - rewrite wide_eqb_eq. split; congruence.
Qed.

Lemma name_eqb_name (k0 : name wide) (k : string) :
  Obj.name_eqb k0 (Name k) = Obj.is_name k0 k.
Proof. now destruct k0. Qed.

(** Assigning to a name written as a string is [Obj.set]. *)
Lemma define_name (o : props wide) (k : string) (v : parsed) :
  Obj.define o (Name k) v = Obj.set o k v.
Proof.
  induction o as [|[k0 v0] o IH]; simpl; [reflexivity |].
  now rewrite name_eqb_name, IH.
Qed.

Lemma get_define_same (o : props wide) (k : string) (v : parsed) :
  Obj.get (Obj.define o (Name k) v) k = Some v.
Proof. rewrite define_name. apply get_set_same. Qed.

Lemma get_define_other (o : props wide) (k0 : name wide) (k : string) (v : parsed) :
  k0 <> Name k -> Obj.get (Obj.define o k0 v) k = Obj.get o k.
Proof.
  intros Hk. induction o as [|[k1 v1] o IH]; simpl.
  - destruct (Obj.is_name k0 k) eqn:E; [| reflexivity].
    now apply is_name_iff in E.
  - destruct (Obj.name_eqb k1 k0) eqn:E; simpl.
    + apply name_eqb_eq in E as ->.
      destruct (Obj.is_name k0 k) eqn:E; [| reflexivity].
      now apply is_name_iff in E.
    + now rewrite IH.
Qed.

(** ** The try block of getSQL *)

Lemma has_prohibited_keyword_empty : has_prohibited_keyword "" = false.
Proof. reflexivity. Qed.

Lemma isProhibitedQuery_total (s : string) :
  exists b, isProhibitedQuery (Some (JString s)) = Returns b.
Proof. rewrite isProhibitedQuery_string. eauto. Qed.

Lemma getSQL_parse_fallback (results : string) :
  looks_like_object results = false ->
  getSQL_parse (JObject default_queryData) results
  = (JObject [("sql", JString ""); ("paramValues", JArray []);
              ("error", JString (if has_prohibited_keyword results
                                 then "Prohibited query." else results))],
     None).
Proof.
  intros H. unfold getSQL_parse. rewrite H.
  unfold is_prohibited. cbn [Obj.own_props].
  change (member (Some (JObject (Obj.set default_queryData "error" (JString results)))) "sql")
    with (@Returns (value wide) (Some (JString ""))).
  change (member (Some (JObject (Obj.set default_queryData "error" (JString results)))) "error")
    with (@Returns (value wide) (Some (JString results))).
  cbn [obind]. rewrite !isProhibitedQuery_string, has_prohibited_keyword_empty.
  cbn [obind]. now destruct (has_prohibited_keyword results).
Qed.

Lemma getSQL_parse_syntax_error (q0 : parsed) (results : string) :
  looks_like_object results = true -> JSON.parse results = None ->
  getSQL_parse q0 results = (q0, Some (SyntaxError results)).
Proof.
  intros H Hp. unfold getSQL_parse, JSON_parse. now rewrite H, Hp.
Qed.

Lemma getSQL_parse_object (q0 : parsed) (results : string) (o : props wide) :
  looks_like_object results = true -> JSON.parse results = Some (JObject o) ->
  getSQL_parse q0 results
  = match is_prohibited (JObject o) with
    | Throws e => (JObject o, Some e)
    | Returns false => (JObject o, None)
    | Returns true =>
        (JObject (Obj.set (Obj.set o "sql" (JString ""))
                          "error" (JString "Prohibited query.")), None)
    end.
Proof.
  intros H Hp. unfold getSQL_parse, JSON_parse. rewrite H, Hp.
  now destruct (is_prohibited (JObject o)) as [[|]|].
Qed.

Lemma is_prohibited_object (o : props wide) :
  is_prohibited (JObject o)
  = match isProhibitedQuery (Obj.get o "sql") with
    | Returns true => Returns true
    | Returns false => isProhibitedQuery (Obj.get o "error")
    | Throws e => Throws e
    end.
Proof.
  unfold is_prohibited. simpl member. cbn [obind].
  now destruct (isProhibitedQuery (Obj.get o "sql")) as [[|]|].
Qed.

(** ** getSQL as a function of its completion call *)

Lemma log_and_return_result (l : list line) (st : parsed * option exn) :
  result (log_and_return l st) = Returns (fst st).
Proof. now destruct st as [q [e|]]. Qed.

Lemma getSQL_unfold (w : World) (userPrompt dbSchema : string) :
  readFile w "db.schema" = Returns dbSchema ->
  getSQL w userPrompt
  = log_and_return
      (console (callOpenAI w (sql_system_prompt dbSchema) userPrompt default_temperature))
      (match result (callOpenAI w (sql_system_prompt dbSchema) userPrompt
                                default_temperature) with
       | Throws e => (JObject default_queryData, Some e)
       | Returns results => getSQL_parse (JObject default_queryData) results
       end).
Proof.
  intros Hread. unfold getSQL. rewrite Hread. unfold lift, bind.
  destruct (callOpenAI _ _ _ _) as [l [results | e]]; unfold result, console; simpl.
  - now destruct (log_and_return l _).
  - reflexivity.
Qed.

Lemma getSQL_result (w : World) (userPrompt : string) (r : outcome string) :
  sql_completion w userPrompt r ->
  result (getSQL w userPrompt)
  = Returns (match r with
             | Throws e => JObject default_queryData
             | Returns results => fst (getSQL_parse (JObject default_queryData) results)
             end).
Proof.
  intros (dbSchema & Hread & Hcall).
  rewrite (getSQL_unfold w userPrompt Hread), log_and_return_result, Hcall.
  now destruct r.
Qed.

Lemma getSQL_console (w : World) (userPrompt : string) (e : exn) :
  (sql_completion w userPrompt (Throws e) \/
   exists results, sql_completion w userPrompt (Returns results) /\
     snd (getSQL_parse (JObject default_queryData) results) = Some e) ->
  exists l, console (getSQL w userPrompt) = (l ++ [ConsoleLog [AExn e]])%list.
Proof.
  intros [(dbSchema & Hread & Hcall) | (results & (dbSchema & Hread & Hcall) & Hthrown)];
    rewrite (getSQL_unfold w userPrompt Hread), Hcall.
  - eexists. reflexivity.
  - destruct (getSQL_parse _ results) as [q thrown]. simpl in Hthrown. subst thrown.
    eexists. reflexivity.
Qed.

(** ** getSQL *)

(** When the safety filter throws, [queryData] already holds the parsed
    reply, and that is what the handler returns. *)
Lemma getSQL_filter_exception (w : World) (userPrompt results : string)
      (v : parsed) (e : exn) :
  sql_completion w userPrompt (Returns results) ->
  looks_like_object results = true -> JSON.parse results = Some v ->
  is_prohibited v = Throws e ->
  result (getSQL w userPrompt) = Returns v /\
  exists l, console (getSQL w userPrompt) = (l ++ [ConsoleLog [AExn e]])%list.
Proof.
  intros Hcall Hlooks Hparse Hfilter.
  destruct (JSON_parse_object _ Hlooks Hparse) as [o ->].
  pose proof (getSQL_parse_object (JObject default_queryData) _ Hlooks Hparse) as Hp.
  rewrite Hfilter in Hp. split.
  - now rewrite (getSQL_result Hcall), Hp.
  - apply getSQL_console. right. exists results. now rewrite Hp.
Qed.

(** C1, as the code has it. Reading [db.schema] happens before the [try]
    block: when it fails, [getSQL] rejects with that failure. Once the
    schema is read, [getSQL] always returns: an exception raised inside the
    [try] block, by the completion call, by [JSON.parse] or by the safety
    filter, is caught, written to the console and swallowed.  When it was
    the completion call or [JSON.parse] that threw, the result is the
    default all-empty one; when it was the safety filter, the result is the
    parsed reply. *)
Theorem getSQL_swallows_after_schema_read :
  (forall w userPrompt e,
     readFile w "db.schema" = Throws e ->
     getSQL w userPrompt = ([], Throws e)) /\
  (forall w userPrompt r,
     sql_completion w userPrompt r ->
     exists q, result (getSQL w userPrompt) = Returns q) /\
  (forall w userPrompt e,
     sql_completion w userPrompt (Throws e) ->
     result (getSQL w userPrompt) = Returns (JObject default_queryData) /\
     exists l, console (getSQL w userPrompt) = (l ++ [ConsoleLog [AExn e]])%list) /\
  (forall w userPrompt results,
     sql_completion w userPrompt (Returns results) ->
     looks_like_object results = true -> JSON.parse results = None ->
     result (getSQL w userPrompt) = Returns (JObject default_queryData) /\
     exists l, console (getSQL w userPrompt)
               = (l ++ [ConsoleLog [AExn (SyntaxError results)]])%list) /\
  (forall w userPrompt results v e,
     sql_completion w userPrompt (Returns results) ->
     looks_like_object results = true -> JSON.parse results = Some v ->
     is_prohibited v = Throws e ->
     result (getSQL w userPrompt) = Returns v /\
     exists l, console (getSQL w userPrompt) = (l ++ [ConsoleLog [AExn e]])%list).
Proof.
  split; [| split; [| split; [| split]]].
  - intros w userPrompt e Hread. unfold getSQL. now rewrite Hread.
  - intros w userPrompt r Hcall. rewrite (getSQL_result Hcall). eauto.
  - intros w userPrompt e Hcall. split.
    + now rewrite (getSQL_result Hcall).
    + apply getSQL_console. now left.
  - intros w userPrompt results Hcall Hlooks Hparse.
    pose proof (getSQL_parse_syntax_error (JObject default_queryData) _ Hlooks Hparse) as Hp.
    split.
    + now rewrite (getSQL_result Hcall), Hp.
    + apply getSQL_console. right. exists results. now rewrite Hp.
  - intros w userPrompt results v e. apply getSQL_filter_exception.
Qed.

Lemma hosted_sql_completion (reply userPrompt : string) :
  sql_completion (hosted_world reply) userPrompt
    (Returns (if has_both_braces (Str.trim reply)
              then extractJson (Str.trim reply) else Str.trim reply)).
Proof. exists schema. split; reflexivity. Qed.

Lemma getSQL_swallows_after_schema_read_witness :
  getSQL (no_schema_world "SELECT 1") "list the customers"
  = ([], Throws (ExternalError "ENOENT: no such file or directory, open 'db.schema'")) /\
  result (getSQL offline_world "list the customers")
  = Returns (JObject default_queryData) /\
  result (getSQL (hosted_world "{bad}") "list the customers")
  = Returns (JObject default_queryData) /\
  result (getSQL (hosted_world (Str.quotes "{'sql':true}")) "list the customers")
  = Returns (JObject [("sql", JBool true)]).
Proof.
  destruct getSQL_swallows_after_schema_read as (Hread & _ & Hcall & Hparse & Hfilter).
  split; [| split; [| split]].
  - apply Hread. reflexivity.
  - apply (Hcall offline_world _ failure). exists schema. split; reflexivity.
  - apply (Hparse _ _ "{bad}"); [apply (hosted_sql_completion "{bad}") | |];
      reflexivity.
  - apply (Hfilter _ _ (Str.quotes "{'sql':true}") _
                   (TypeError "query.toLowerCase is not a function"));
      [apply (hosted_sql_completion (Str.quotes "{'sql':true}")) | | |];
      reflexivity.
Defined.

(** C1 as stated fails: with no [db.schema] to read [getSQL] throws to its
    caller, and when the safety filter throws on a parsed reply the result
    is not the default all-empty one. *)
Lemma getSQL_read_failure_escapes :
  result (getSQL (no_schema_world "SELECT 1") "list the customers")
  = Throws (ExternalError "ENOENT: no such file or directory, open 'db.schema'") /\
  result (getSQL (hosted_world (Str.quotes "{'sql':true}")) "list the customers")
  = Returns (JObject [("sql", JBool true)]) /\
  JObject [("sql", JBool true)] <> JObject default_queryData.
Proof. split; [reflexivity | split; [reflexivity | discriminate]]. Qed.




(** C6, as the code has it. For every reply text the completion client
    returns that does not both start with an opening brace and end with a
    closing one, [getSQL] leaves [sql] and [paramValues] at their defaults
    and sets [error] to the whole reply, or to ['Prohibited query.'] when the
    safety filter flags the reply; the reply [I cannot answer that] yields
    [{sql:'', paramValues:[], error:'I cannot answer that'}]. *)
Theorem getSQL_plain_reply_is_error :
  (forall w userPrompt results,
     sql_completion w userPrompt (Returns results) ->
     looks_like_object results = false ->
     result (getSQL w userPrompt)
     = Returns (JObject [("sql", JString ""); ("paramValues", JArray []);
                         ("error", JString (if has_prohibited_keyword results
                                            then "Prohibited query."
                                            else results))])) /\
  (forall w userPrompt,
     sql_completion w userPrompt (Returns "I cannot answer that") ->
     result (getSQL w userPrompt)
     = Returns (JObject [("sql", JString ""); ("paramValues", JArray []);
                         ("error", JString "I cannot answer that")])).
Proof.
  assert (H : forall w userPrompt results,
     sql_completion w userPrompt (Returns results) ->
     looks_like_object results = false ->
     result (getSQL w userPrompt)
     = Returns (JObject [("sql", JString ""); ("paramValues", JArray []);
                         ("error", JString (if has_prohibited_keyword results
                                            then "Prohibited query."
                                            else results))])).
  { intros w userPrompt results Hcall Hlooks.
    now rewrite (getSQL_result Hcall), (getSQL_parse_fallback _ Hlooks). }
  split; [exact H |].
  intros w userPrompt Hcall. now rewrite (H _ _ _ Hcall).
Qed.

Lemma getSQL_plain_reply_is_error_witness :
  result (getSQL (hosted_world "I cannot answer that") "what is the weather")
  = Returns (JObject [("sql", JString ""); ("paramValues", JArray []);
                      ("error", JString "I cannot answer that")]) /\
  result (getSQL (hosted_world "Please update your question") "what is the weather")
  = Returns (JObject [("sql", JString ""); ("paramValues", JArray []);
                      ("error", JString "Prohibited query.")]).
Proof.
  destruct getSQL_plain_reply_is_error as [Hany Hcannot]. split.
  - apply Hcannot. apply (hosted_sql_completion "I cannot answer that").
  - apply (Hany _ _ "Please update your question");
      [apply (hosted_sql_completion "Please update your question") | reflexivity].
Defined.

(** C6 as stated fails: a plain reply that the safety filter flags is not
    placed in [error]. *)
Lemma getSQL_plain_reply_flagged :
  looks_like_object "Please update your question" = false /\
  result (callOpenAI (hosted_world "Please update your question")
                     (sql_system_prompt schema) "what is the weather"
                     default_temperature)
  = Returns "Please update your question" /\
  result (getSQL (hosted_world "Please update your question") "what is the weather")
  = Returns (JObject [("sql", JString ""); ("paramValues", JArray []);
                      ("error", JString "Prohibited query.")]) /\
  "Prohibited query." <> "Please update your question".
Proof. repeat split; try reflexivity. discriminate. Qed.

(** The filter can be run on a value exactly when the value is falsy or a
    string. *)
Lemma isProhibitedQuery_returns_iff (v : value wide) :
  (exists b, isProhibitedQuery v = Returns b) <->
  (falsy v = true \/ (exists t, v = Some (JString t))
   \/ exists t, v = Some (JWide t)).
Proof.
  unfold isProhibitedQuery. split.
  - intros [b H]. destruct (falsy v) eqn:Hf; [now left | right].
    destruct v as [[| | |t|t| |]|]; try discriminate;
      [left | right]; now exists t.
  - intros [Hf | [[t ->] | [t ->]]].
    + rewrite Hf. eauto.
    + destruct (falsy (Some (JString t))); eauto.
    + destruct (falsy (Some (JWide t))); eauto.
Qed.

(** C8, as the code has it. For every parsed reply whose [sql] field the
    filter can be run on (a string, or absent, or another falsy value), if
    the safety filter flags the [sql] field or the [error] field, [getSQL]
    returns the parsed object with [sql] forced to [''] and [error] forced to
    ['Prohibited query.']; the reply [{"sql":"DROP TABLE users",
    "paramValues":[]}] yields [{sql:'', paramValues:[], error:'Prohibited
    query.'}] on both backends.  A [sql] written with an escape is a string
    like any other, and a [sql] number that underflows to zero is falsy. *)
Theorem getSQL_prohibited_reply :
  (forall w userPrompt results v,
     sql_completion w userPrompt (Returns results) ->
     looks_like_object results = true -> JSON.parse results = Some v ->
     (exists b, isProhibitedQuery (field v "sql") = Returns b) ->
     isProhibitedQuery (field v "sql") = Returns true \/
     isProhibitedQuery (field v "error") = Returns true ->
     exists o,
       v = JObject o /\
       result (getSQL w userPrompt)
       = Returns (JObject (Obj.set (Obj.set o "sql" (JString ""))
                                   "error" (JString "Prohibited query.")))) /\
  result (getSQL (hosted_world (Str.quotes "{'sql':'DROP TABLE users','paramValues':[]}"))
                 "remove the users")
  = Returns (JObject [("sql", JString ""); ("paramValues", JArray []);
                      ("error", JString "Prohibited query.")]) /\
  result (getSQL (direct_world (Str.quotes "{'sql':'DROP TABLE users','paramValues':[]}"))
                 "remove the users")
  = Returns (JObject [("sql", JString ""); ("paramValues", JArray []);
                      ("error", JString "Prohibited query.")]) /\
  result (getSQL (hosted_world (Str.quotes "{'sql':'DROP TABLE \u4e2d'}")) "remove the table")
  = Returns (JObject [("sql", JString ""); ("error", JString "Prohibited query.")]) /\
  result (getSQL (hosted_world (Str.quotes "{'sql':1e-400,'error':'drop'}")) "count the users")
  = Returns (JObject [("sql", JString ""); ("error", JString "Prohibited query.")]).
Proof.
  split; [| repeat split; vm_compute; reflexivity].
  intros w userPrompt results v Hcall Hlooks Hparse [b Hsql] Hflag.
  destruct (JSON_parse_object _ Hlooks Hparse) as [o ->]. exists o.
  split; [reflexivity |]. simpl field in *.
  rewrite (getSQL_result Hcall), (getSQL_parse_object _ _ Hlooks Hparse).
  rewrite is_prohibited_object, Hsql.
  destruct b; [reflexivity |].
  destruct Hflag as [Hflag | Hflag]; [congruence |]. now rewrite Hflag.
Qed.

Lemma getSQL_prohibited_reply_witness :
  exists o,
    JObject [("sql", JString "SELECT 1"); ("error", JString "then drop it")] = JObject o /\
    result (getSQL (hosted_world (Str.quotes "{'sql':'SELECT 1','error':'then drop it'}"))
                   "count the users")
    = Returns (JObject (Obj.set (Obj.set o "sql" (JString ""))
                                "error" (JString "Prohibited query."))).
Proof.
  eapply (proj1 getSQL_prohibited_reply _ _
            (Str.quotes "{'sql':'SELECT 1','error':'then drop it'}")).
  - apply (hosted_sql_completion (Str.quotes "{'sql':'SELECT 1','error':'then drop it'}")).
  - reflexivity.
  - reflexivity.
  - exists false. reflexivity.
  - right. reflexivity.
Defined.

(** C8 as stated fails: when [sql] is a truthy value that is not a string
    the filter throws on it, and the parsed object is returned with the
    [error] field the filter would flag. *)
Lemma getSQL_flagged_error_kept :
  JSON.parse (Str.quotes "{'sql':5,'error':'drop'}")
  = Some (JObject [("sql", JNumber "5"); ("error", JString "drop")]) /\
  isProhibitedQuery (Some (JString "drop")) = Returns true /\
  result (getSQL (hosted_world (Str.quotes "{'sql':5,'error':'drop'}")) "count the users")
  = Returns (JObject [("sql", JNumber "5"); ("error", JString "drop")]).
Proof. repeat split; reflexivity. Qed.

(** C10, as the code has it. For every reply that starts with an opening
    brace, ends with a closing one and parses to an object without a
    [paramValues] key, [getSQL] replaces its default result by the parsed
    object: the result has no [paramValues]; and it has no [error] unless the
    reply supplies one or the safety filter flags the reply, in which case
    [error] is ['Prohibited query.']. *)
Theorem getSQL_parsed_reply_replaces_default :
  (forall w userPrompt results v,
     sql_completion w userPrompt (Returns results) ->
     looks_like_object results = true -> JSON.parse results = Some v ->
     field v "paramValues" = undefined ->
     exists q,
       result (getSQL w userPrompt) = Returns q /\
       field q "paramValues" = undefined /\
       (is_prohibited v = Returns true ->
        field q "error" = Some (JString "Prohibited query.")) /\
       (is_prohibited v <> Returns true -> q = v)) /\
  result (getSQL (hosted_world (Str.quotes "{'sql':'SELECT 1'}")) "give me one")
  = Returns (JObject [("sql", JString "SELECT 1")]).
Proof.
  split; [| reflexivity].
  intros w userPrompt results v Hcall Hlooks Hparse Hparams.
  destruct (JSON_parse_object _ Hlooks Hparse) as [o ->].
  rewrite (getSQL_result Hcall), (getSQL_parse_object _ _ Hlooks Hparse).
  eexists. split; [reflexivity |].
  destruct (is_prohibited (JObject o)) as [[|]|e]; simpl in *.
  - rewrite !get_set_other by discriminate. rewrite get_set_same.
    repeat split; auto. congruence.
  - repeat split; auto. congruence.
  - repeat split; auto. congruence.
Qed.

Lemma getSQL_parsed_reply_replaces_default_witness :
  exists q,
    result (getSQL (hosted_world (Str.quotes "{'sql':'SELECT 1'}")) "give me one")
    = Returns q /\
    field q "paramValues" = undefined /\
    (is_prohibited (JObject [("sql", JString "SELECT 1")]) = Returns true ->
     field q "error" = Some (JString "Prohibited query.")) /\
    (is_prohibited (JObject [("sql", JString "SELECT 1")]) <> Returns true ->
     q = JObject [("sql", JString "SELECT 1")]).
Proof.
  apply (proj1 getSQL_parsed_reply_replaces_default _ _ (Str.quotes "{'sql':'SELECT 1'}")).
  - apply (hosted_sql_completion (Str.quotes "{'sql':'SELECT 1'}")).
  - reflexivity.
  - reflexivity.
  - reflexivity.
Defined.

(** C10 as stated fails: a reply without an [error] key that the filter
    flags comes back with an [error] field. *)
Lemma getSQL_error_field_added :
  field (JObject [("sql", JString "DROP TABLE users")] : parsed) "error" = undefined /\
  JSON.parse (Str.quotes "{'sql':'DROP TABLE users'}")
  = Some (JObject [("sql", JString "DROP TABLE users")]) /\
  result (getSQL (hosted_world (Str.quotes "{'sql':'DROP TABLE users'}")) "remove the users")
  = Returns (JObject [("sql", JString ""); ("error", JString "Prohibited query.")]).
Proof. repeat split; reflexivity. Qed.

(** ** The completion clients *)

Lemma extractJson_object (m : string) :
  one_level_object m -> extractJson m = m.
Proof.
  intros H. rewrite <- (append_nil_r m) at 1.
  now apply (extractJson_embedded "" "" H).
Qed.

Lemma extractJson_idem (content : string) :
  extractJson (extractJson content) = extractJson content.
Proof.
  destruct (extractJson_cases content)
    as [(m & (pre & post & _ & Hobj & _) & ->) | [_ ->]].
  - now apply extractJson_object.
  - reflexivity.
Qed.

(** The hosted client returns the trimmed content, reduced by the extractor
    only when it holds both braces. *)
Lemma hosted_completion (reply systemPrompt userPrompt : string) (t : QArith_base.Q) :
  result (callOpenAI (hosted_world reply) systemPrompt userPrompt t)
  = Returns (if has_both_braces (Str.trim reply)
             then extractJson (Str.trim reply) else Str.trim reply).
Proof. reflexivity. Qed.

(** The direct client returns what the extractor makes of the trimmed
    content, whether or not it holds braces. *)
Lemma direct_completion (reply systemPrompt userPrompt : string) (t : QArith_base.Q) :
  result (callOpenAI (direct_world reply) systemPrompt userPrompt t)
  = Returns (extractJson (Str.trim reply)).
Proof.
  change (result (callOpenAI (direct_world reply) systemPrompt userPrompt t))
    with (Returns (if has_both_braces (extractJson (Str.trim reply))
                   then extractJson (extractJson (Str.trim reply))
                   else extractJson (Str.trim reply))).
  rewrite extractJson_idem. now destruct (has_both_braces _).
Qed.

(** The hosted client in any world: with the first choice's content
    trimmed to [content], it returns [content], reduced by the extractor
    only when it holds both braces. *)
Lemma getAzureOpenAICompletion_returns (w : World)
      (systemPrompt userPrompt : string) (t : QArith_base.Q)
      (completion : body) (content : string) :
  isAzureOpenAI w = true ->
  (forall url key data, fetch_json w url key data = Returns completion) ->
  (choices <~ member (Some completion) "choices" ;; first_choice_content choices)
  = Returns content ->
  result (callOpenAI w systemPrompt userPrompt t)
  = Returns (if has_both_braces content then extractJson content else content).
Proof.
  intros Hazure Hfetch Hcontent.
  unfold callOpenAI. rewrite Hazure. unfold isAzureOpenAI in Hazure.
  apply andb_true_iff in Hazure as [Hazure Hmodel].
  apply andb_true_iff in Hazure as [Hkey Hendpoint].
  unfold getAzureOpenAICompletion. rewrite Hkey, Hendpoint, Hmodel.
  cbn [negb orb]. rewrite Hfetch. unfold lift, bind, try_catch.
  rewrite Hcontent. reflexivity.
Qed.

(** The direct client in any world: whatever the trimmed content holds, it
    returns what the extractor makes of it. *)
Lemma getOpenAICompletion_returns (w : World)
      (systemPrompt userPrompt : string) (t : QArith_base.Q)
      (data : body) (content : string) :
  isAzureOpenAI w = false -> env_truthy (OPENAI_API_KEY w) = true ->
  (forall key request, createChatCompletion w key request = Returns data) ->
  (choices <~ member (Some data) "choices" ;; first_choice_content choices)
  = Returns content ->
  result (callOpenAI w systemPrompt userPrompt t) = Returns (extractJson content).
Proof.
  intros Hazure Hkey Hcreate Hcontent.
  unfold callOpenAI. rewrite Hazure.
  unfold getOpenAICompletion. rewrite Hkey.
  cbn [negb]. rewrite Hcreate. unfold lift, bind, try_catch.
  rewrite Hcontent. cbn [result snd console_log].
  rewrite extractJson_idem. now destruct (has_both_braces _).
Qed.

(** C3 fails on the direct provider backend. Its client passes the trimmed
    content through the extractor before it tests for braces, so content
    without braces comes back as the empty string there, where the hosted
    client returns it trimmed and unchanged. *)
Theorem getOpenAICompletion_drops_plain_content :
  has_both_braces "I cannot answer that" = false /\
  result (callOpenAI (direct_world "  I cannot answer that ") "system" "user"
                     default_temperature)
  = Returns "" /\
  result (callOpenAI (hosted_world "  I cannot answer that ") "system" "user"
                     default_temperature)
  = Returns "I cannot answer that".
Proof. repeat split; reflexivity. Qed.

(** ** completeEmailSMSMessages *)

Lemma completeEmailSMSMessages_result (w : World)
      (prompt company contactName : string) (r : outcome string) :
  message_completion w prompt contactName r ->
  result (completeEmailSMSMessages w prompt company contactName)
  = Returns (match r with
             | Throws e => JObject default_content
             | Returns results =>
                 fst (completeEmailSMSMessages_parse (JObject default_content) results)
             end).
Proof.
  unfold message_completion, completeEmailSMSMessages, console_log, bind.
  intros <-.
  destruct (callOpenAI _ _ _ _) as [l [results | e]]; unfold result; simpl.
  - destruct (log_and_return l _) as [l' o] eqn:E.
    change o with (result (l', o)). now rewrite <- E, log_and_return_result.
  - reflexivity.
Qed.

Lemma message_parse_object (results : string) (o : props wide) :
  looks_like_object results = true -> JSON.parse results = Some (JObject o) ->
  completeEmailSMSMessages_parse (JObject default_content) results
  = (JObject (Obj.set (Obj.assign [("content", JObject default_content)] o)
                      "status" (JBool true)), None).
Proof.
  intros H Hp. unfold completeEmailSMSMessages_parse, JSON_parse. now rewrite H, Hp.
Qed.



(** What the flow builds from a parsed reply: the default object under the
    name [content], then the fields of the reply, then [status]. *)
Lemma completeEmailSMSMessages_parsed (w : World)
      (prompt company contactName results : string) (v : parsed) :
  message_completion w prompt contactName (Returns results) ->
  looks_like_object results = true -> JSON.parse results = Some v ->
  exists o,
    v = JObject o /\
    result (completeEmailSMSMessages w prompt company contactName)
    = Returns (JObject (Obj.set (Obj.assign [("content", JObject default_content)] o)
                                "status" (JBool true))).
Proof.
  intros Hcall Hlooks Hparse.
  destruct (JSON_parse_object _ Hlooks Hparse) as [o ->]. exists o.
  split; [reflexivity |].
  now rewrite (completeEmailSMSMessages_result _ Hcall),
    (message_parse_object _ Hlooks Hparse).
Qed.

(** C2 fails on the reply of the claim itself. The flow writes [{ content,
    ...JSON.parse(results) }]: the default result becomes the value of a new
    field [content] instead of being spread, so the result has [status] true
    and the three message fields, but not the defaults [email] and [error],
    and it has the extra field [content]. *)
Theorem completeEmailSMSMessages_nests_default :
  let reply := Str.quotes "{'emailSubject':'Hi','emailBody':'Hello','sms':'Hi'}" in
  let returned :=
    JObject [("content", JObject default_content);
             ("emailSubject", JString "Hi"); ("emailBody", JString "Hello");
             ("sms", JString "Hi"); ("status", JBool true)] in
  looks_like_object reply = true /\
  result (completeEmailSMSMessages (hosted_world reply) "Order shipped" "Adatum" "Ana")
  = Returns returned /\
  result (completeEmailSMSMessages (direct_world reply) "Order shipped" "Adatum" "Ana")
  = Returns returned /\
  field returned "email" = undefined /\
  field returned "error" = undefined /\
  field returned "content" = Some (JObject default_content).
Proof. repeat split; reflexivity. Qed.





(** A reply written with an escape parses, and its field is kept. *)
Example completeEmailSMSMessages_escaped_reply :
  result (completeEmailSMSMessages (hosted_world (Str.quotes "{'sms':'\u4e2d'}"))
                                   "Order shipped" "Adatum" "Ana")
  = Returns (JObject [("content", JObject default_content);
                      ("sms", JWide [20013%N]); ("status", JBool true)]).
Proof. vm_compute. reflexivity. Qed.

(** ** The completion call in any world *)

Lemma isAzureOpenAI_true (w : World) :
  isAzureOpenAI w = true ->
  env_truthy (OPENAI_API_KEY w) = true /\
  env_truthy (OPENAI_ENDPOINT w) = true /\
  env_truthy (OPENAI_MODEL w) = true.
Proof.
  unfold isAzureOpenAI. intros H.
  apply andb_true_iff in H as [H Hm]. apply andb_true_iff in H as [Hk He]. auto.
Qed.

(** The four ways a completion call ends, with what it wrote. *)
Lemma callOpenAI_cases (w : World) (systemPrompt userPrompt : string)
      (t : QArith_base.Q) :
  (env_truthy (OPENAI_API_KEY w) = false /\
   callOpenAI w systemPrompt userPrompt t
   = ([], Throws (Error "Missing OpenAI API key in environment variables."))) \/
  (env_truthy (OPENAI_API_KEY w) = true /\
   exists e,
     callOpenAI w systemPrompt userPrompt t
     = ([ConsoleError [AStr "Error getting data:"; AExn e]], Throws e)) \/
  (env_truthy (OPENAI_API_KEY w) = true /\ isAzureOpenAI w = true /\
   exists content,
     callOpenAI w systemPrompt userPrompt t
     = ([ConsoleLog [AStr ("Azure OpenAI Output: " ++ String (ascii_of_nat 10) "");
                     AStr content]],
        Returns (if has_both_braces content then extractJson content else content))) \/
  (env_truthy (OPENAI_API_KEY w) = true /\ isAzureOpenAI w = false /\
   exists raw,
     callOpenAI w systemPrompt userPrompt t
     = ([ConsoleLog [AStr ("OpenAI Output: " ++ String (ascii_of_nat 10) "");
                     AStr (extractJson raw)]],
        Returns (extractJson raw))).
Proof.
  unfold callOpenAI.
  destruct (isAzureOpenAI w) eqn:Hazure.
  - destruct (isAzureOpenAI_true w Hazure) as (Hk & He & Hm).
    unfold getAzureOpenAICompletion. rewrite Hk, He, Hm. cbn [negb orb].
    destruct (fetch_json w _ _ _) as [completion | e] eqn:Hfetch.
    + unfold lift, bind, try_catch.
      destruct (choices <~ member (Some completion) "choices" ;;
                first_choice_content choices) as [content | e].
      * right; right; left. repeat split; auto. now exists content.
      * right; left. split; auto. now exists e.
    + right; left. split; auto. now exists e.
  - unfold getOpenAICompletion.
    destruct (env_truthy (OPENAI_API_KEY w)) eqn:Hk; cbn [negb].
    + destruct (createChatCompletion w _ _) as [data | e] eqn:Hcreate.
      * unfold lift, bind, try_catch.
        destruct (choices <~ member (Some data) "choices" ;;
                  first_choice_content choices) as [raw | e].
        -- right; right; right. repeat split; auto. exists raw.
           cbn [console_log ret app]. rewrite extractJson_idem.
           now destruct (has_both_braces (extractJson raw)).
        -- right; left. split; auto. now exists e.
      * right; left. split; auto. now exists e.
    + left. auto.
Qed.

(** ** What the extractor hands on *)

Lemma last_char_append (a : string) (c : ascii) :
  Str.last_char (a ++ String c "") = Some c.
Proof.
  induction a as [|x a IH]; [reflexivity |].
  change (String x a ++ String c "") with (String x (a ++ String c "")).
  cbn [Str.last_char]. rewrite IH.
  destruct (a ++ String c "") eqn:E; [| reflexivity].
  destruct a; discriminate.
Qed.

Lemma one_level_object_tests (m : string) :
  one_level_object m ->
  looks_like_object m = true /\ has_both_braces m = true.
Proof.
  intros Hobj. pose proof Hobj as (body & -> & _).
  destruct (object_has_braces "" "" Hobj) as [Hl Hr].
  change ("" ++ ("{" ++ body ++ "}") ++ "") with (("{" ++ body ++ "}") ++ "") in Hl, Hr.
  rewrite append_nil_r in Hl, Hr.
  split.
  - assert (Hstart : Str.startsWith ("{" ++ body ++ "}") "{" = true).
    { apply prefix_iff. now exists (body ++ "}"). }
    assert (Hend : Str.endsWithChar ("{" ++ body ++ "}") rbrace = true).
    { unfold Str.endsWithChar.
      replace ("{" ++ body ++ "}") with (("{" ++ body) ++ "}")
        by (now rewrite append_assoc).
      now rewrite last_char_append. }
    unfold looks_like_object. now rewrite Hstart, Hend.
  - unfold has_both_braces. now rewrite Hl, Hr.
Qed.

(** X1. What [extractJson] returns is the empty string or a text that
    passes the brace test of the completion clients and the brace test of
    the two flows; it is a part of the input, and extracting from it again
    gives it back. *)
Theorem extractJson_output_passes_tests :
  forall content,
    (extractJson content = "" \/
     (looks_like_object (extractJson content) = true /\
      has_both_braces (extractJson content) = true)) /\
    (exists pre post, content = pre ++ extractJson content ++ post) /\
    String.length (extractJson content) <= String.length content /\
    extractJson (extractJson content) = extractJson content.
Proof.
  intros content. split; [| split; [| split]].
  - destruct (extractJson_cases content)
      as [(m & (pre & post & _ & Hobj & _) & ->) | [_ ->]]; [right | now left].
    now apply one_level_object_tests.
  - destruct (extractJson_cases content)
      as [(m & (pre & post & Hc & _) & ->) | [_ ->]].
    + now exists pre, post.
    + now exists "", content.
  - destruct (extractJson_cases content)
      as [(m & (pre & post & Hc & _) & ->) | [_ ->]]; [| simpl; lia].
    rewrite Hc, !length_append. lia.
  - apply extractJson_idem.
Qed.

(** X2. Whatever text a completion call returns with both braces in it is
    one balanced one-level object text, on either backend: it starts with
    the opening brace and ends with the closing one, so both flows parse
    it. *)
Theorem callOpenAI_braces_mean_object :
  forall w systemPrompt userPrompt t results,
    result (callOpenAI w systemPrompt userPrompt t) = Returns results ->
    has_both_braces results = true ->
    one_level_object results /\ looks_like_object results = true.
Proof.
  intros w systemPrompt userPrompt t results Hres Hboth.
  assert (Hextract : forall c, has_both_braces (extractJson c) = true ->
                               one_level_object (extractJson c)).
  { intros c Hc.
    destruct (extractJson_cases c)
      as [(m & (pre & post & _ & Hobj & _) & Hm) | [_ Hm]]; rewrite Hm in *.
    - assumption.
    - discriminate. }
  assert (Hobj : one_level_object results).
  { destruct (callOpenAI_cases w systemPrompt userPrompt t)
      as [[_ H] | [[_ [e H]] | [(_ & _ & content & H) | (_ & _ & raw & H)]]];
      rewrite H in Hres; cbn in Hres; try discriminate;
      inversion Hres; subst results; clear Hres.
    - destruct (has_both_braces content) eqn:Hc.
      + now apply Hextract.
      + congruence.
    - now apply Hextract. }
  split; [assumption | now apply one_level_object_tests].
Qed.

Lemma callOpenAI_braces_mean_object_witness :
  one_level_object "{a:{b}}" /\ looks_like_object "{a:{b}}" = true.
Proof.
  apply (callOpenAI_braces_mean_object (hosted_world "Here you are: {a:{b}} bye")
           "system" "user" default_temperature); reflexivity.
Defined.

(** X3. A completion call that fails has written exactly one line, the
    error it throws, with [console.error], except when the API key is
    missing: then it throws the missing-key error of the direct provider
    and writes nothing. A call that returns has written exactly one line
    with [console.log]. *)
Theorem callOpenAI_console :
  forall w systemPrompt userPrompt t,
    (forall e,
       result (callOpenAI w systemPrompt userPrompt t) = Throws e ->
       (env_truthy (OPENAI_API_KEY w) = false /\
        e = Error "Missing OpenAI API key in environment variables." /\
        console (callOpenAI w systemPrompt userPrompt t) = []) \/
       (env_truthy (OPENAI_API_KEY w) = true /\
        console (callOpenAI w systemPrompt userPrompt t)
        = [ConsoleError [AStr "Error getting data:"; AExn e]])) /\
    (forall results,
       result (callOpenAI w systemPrompt userPrompt t) = Returns results ->
       env_truthy (OPENAI_API_KEY w) = true /\
       exists args, console (callOpenAI w systemPrompt userPrompt t) = [ConsoleLog args]).
Proof.
  intros w systemPrompt userPrompt t.
  destruct (callOpenAI_cases w systemPrompt userPrompt t)
    as [[Hk H] | [[Hk [e' H]] | [(Hk & _ & content & H) | (Hk & _ & raw & H)]]];
    rewrite H; cbn [result console fst snd]; split.
  - intros e He. inversion He. left. auto.
  - intros results Hr. discriminate.
  - intros e He. inversion He; subst. right. auto.
  - intros results Hr. discriminate.
  - intros e He. discriminate.
  - intros results _. split; [assumption | eauto].
  - intros e He. discriminate.
  - intros results _. split; [assumption | eauto].
Qed.

Lemma callOpenAI_console_witness :
  (env_truthy (OPENAI_API_KEY offline_world) = false /\
   failure = Error "Missing OpenAI API key in environment variables." /\
   console (callOpenAI offline_world "system" "user" default_temperature) = []) \/
  (env_truthy (OPENAI_API_KEY offline_world) = true /\
   console (callOpenAI offline_world "system" "user" default_temperature)
   = [ConsoleError [AStr "Error getting data:"; AExn failure]]).
Proof.
  apply (proj1 (callOpenAI_console offline_world "system" "user" default_temperature)).
  reflexivity.
Defined.

(** X4. With no API key in the environment, neither flow reaches the
    network or raises: [completeEmailSMSMessages] returns its default
    result, and [getSQL], once [db.schema] is read, returns its default
    result after writing the missing-key error to the console. *)
Theorem flows_swallow_missing_key :
  forall w,
    env_truthy (OPENAI_API_KEY w) = false ->
    (forall prompt company contactName,
       completeEmailSMSMessages w prompt company contactName
       = ([ConsoleLog [AStr "Inputs:"; AStr prompt; AStr company; AStr contactName];
           ConsoleLog [AExn (Error "Missing OpenAI API key in environment variables.")]],
          Returns (JObject default_content))) /\
    (forall userPrompt dbSchema,
       readFile w "db.schema" = Returns dbSchema ->
       getSQL w userPrompt
       = ([ConsoleLog [AExn (Error "Missing OpenAI API key in environment variables.")]],
          Returns (JObject default_queryData))).
Proof.
  intros w Hk.
  assert (Hcall : forall s u t,
            callOpenAI w s u t
            = ([], Throws (Error "Missing OpenAI API key in environment variables."))).
  { intros s u t.
    destruct (callOpenAI_cases w s u t)
      as [[_ H] | [[Hk' _] | [(Hk' & _) | (Hk' & _)]]]; congruence. }
  split.
  - intros prompt company contactName.
    unfold completeEmailSMSMessages, console_log, bind. now rewrite Hcall.
  - intros userPrompt dbSchema Hread.
    rewrite (getSQL_unfold w userPrompt Hread), Hcall. reflexivity.
Qed.

Lemma flows_swallow_missing_key_witness :
  result (completeEmailSMSMessages unconfigured_world "Order shipped" "Adatum" "Ana")
  = Returns (JObject default_content) /\
  result (getSQL unconfigured_world "list the customers")
  = Returns (JObject default_queryData).
Proof.
  destruct (flows_swallow_missing_key unconfigured_world) as [Hmsg Hsql];
    [reflexivity |].
  split.
  - now rewrite Hmsg.
  - now rewrite (Hsql "list the customers" schema).
Defined.

(** X5. [completeEmailSMSMessages] does not use its [company] argument
    beyond the first console line: the result and every later line are the
    same for any two companies. *)
Theorem completeEmailSMSMessages_ignores_company :
  forall w prompt company company' contactName,
    result (completeEmailSMSMessages w prompt company contactName)
    = result (completeEmailSMSMessages w prompt company' contactName) /\
    tl (console (completeEmailSMSMessages w prompt company contactName))
    = tl (console (completeEmailSMSMessages w prompt company' contactName)) /\
    hd_error (console (completeEmailSMSMessages w prompt company contactName))
    = Some (ConsoleLog [AStr "Inputs:"; AStr prompt; AStr company; AStr contactName]).
Proof.
  intros w prompt company company' contactName.
  unfold completeEmailSMSMessages, console_log, bind, result, console.
  destruct (callOpenAI w _ _ _) as [l [results | e]];
    [destruct (log_and_return l (completeEmailSMSMessages_parse _ results)) as [l' o]
    | destruct (log_and_return l (JObject default_content, Some e)) as [l' o]];
    repeat split.
Qed.

(** ** What getSQL lets through *)

Lemma isProhibitedQuery_false_string (s : string) :
  isProhibitedQuery (Some (JString s)) = Returns false ->
  has_prohibited_keyword s = false.
Proof. rewrite isProhibitedQuery_string. congruence. Qed.

Lemma isProhibitedQuery_string_returns (s : string) (e : exn) :
  isProhibitedQuery (Some (JString s)) <> Throws e.
Proof. rewrite isProhibitedQuery_string. discriminate. Qed.

(** X6. [getSQL] never returns a [sql] that the safety filter flags,
    whatever the model replied; and when the filter can be run on the [sql]
    it returns (a string or a falsy value), the [error] it returns is not
    flagged either.  In particular a [sql] or [error] string of the 8-bit
    alphabet that it returns holds no keyword. *)
Theorem getSQL_returns_no_flagged_sql :
  forall w userPrompt q,
    result (getSQL w userPrompt) = Returns q ->
    isProhibitedQuery (field q "sql") <> Returns true /\
    ((exists b, isProhibitedQuery (field q "sql") = Returns b) ->
     isProhibitedQuery (field q "error") <> Returns true) /\
    (forall s, field q "sql" = Some (JString s) -> has_prohibited_keyword s = false) /\
    ((exists b, isProhibitedQuery (field q "sql") = Returns b) ->
     forall e, field q "error" = Some (JString e) -> has_prohibited_keyword e = false).
Proof.
  intros w userPrompt q Hres.
  assert (Hmain :
    isProhibitedQuery (field q "sql") <> Returns true /\
    ((exists b, isProhibitedQuery (field q "sql") = Returns b) ->
     isProhibitedQuery (field q "error") <> Returns true)).
  { assert (Hforced : forall o : props wide,
      let q' := JObject (Obj.set (Obj.set o "sql" (JString ""))
                                 "error" (JString "Prohibited query.")) in
      isProhibitedQuery (field q' "sql") <> Returns true /\
      isProhibitedQuery (field q' "error") <> Returns true).
    { intros o q'. unfold q'. cbn [field].
      rewrite get_set_other by discriminate. rewrite !get_set_same.
      split; discriminate. }
    assert (Hdefault :
      isProhibitedQuery (field (JObject default_queryData) "sql") <> Returns true /\
      isProhibitedQuery (field (JObject default_queryData) "error") <> Returns true).
    { split; discriminate. }
    destruct (readFile w "db.schema") as [dbSchema | e0] eqn:Hread;
      [| unfold getSQL in Hres; rewrite Hread in Hres; discriminate].
    assert (Hcall : sql_completion w userPrompt
              (result (callOpenAI w (sql_system_prompt dbSchema) userPrompt
                                  default_temperature)))
      by (exists dbSchema; auto).
    rewrite (getSQL_result Hcall) in Hres. inversion Hres as [Hq]. clear Hres Hcall.
    destruct (result (callOpenAI w _ _ _)) as [results | e0];
      [| split; [| intros _]; apply Hdefault].
    destruct (looks_like_object results) eqn:Hlooks.
    - destruct (JSON.parse results) as [v|] eqn:Hparse.
      + destruct (JSON_parse_object _ Hlooks Hparse) as [o ->].
        rewrite (getSQL_parse_object _ _ Hlooks Hparse), is_prohibited_object.
        destruct (isProhibitedQuery (Obj.get o "sql")) as [[|]|e1] eqn:Hs.
        * split; [| intros _]; apply Hforced.
        * destruct (isProhibitedQuery (Obj.get o "error")) as [[|]|e1] eqn:He.
          -- split; [| intros _]; apply Hforced.
          -- cbn [fst field]. rewrite Hs, He. split; [| intros _]; discriminate.
          -- cbn [fst field]. rewrite Hs, He. split; [| intros _]; discriminate.
        * cbn [fst field]. rewrite Hs. split; [discriminate |].
          intros [b Hb]. discriminate.
      + rewrite (getSQL_parse_syntax_error _ _ Hlooks Hparse).
        split; [| intros _]; apply Hdefault.
    - rewrite (getSQL_parse_fallback _ Hlooks).
      remember (if has_prohibited_keyword results
                then "Prohibited query." else results) as err eqn:Herr.
      cbn [fst field Obj.get Obj.is_name String.eqb Ascii.eqb Bool.eqb].
      split; [discriminate | intros _].
      rewrite isProhibitedQuery_string. subst err.
      destruct (has_prohibited_keyword results) eqn:Hk; [discriminate |].
      rewrite Hk. discriminate. }
  destruct Hmain as [Hsql Herror]. split; [assumption |]. split; [assumption |].
  split.
  - intros s Hf. rewrite Hf, isProhibitedQuery_string in Hsql.
    destruct (has_prohibited_keyword s); congruence.
  - intros Hb e Hf. specialize (Herror Hb).
    rewrite Hf, isProhibitedQuery_string in Herror.
    destruct (has_prohibited_keyword e); congruence.
Qed.

Lemma getSQL_returns_no_flagged_sql_witness :
  let q : parsed := JObject [("sql", JString "SELECT 1"); ("error", JString "none")] in
  isProhibitedQuery (field q "sql") <> Returns true /\
  ((exists b, isProhibitedQuery (field q "sql") = Returns b) ->
   isProhibitedQuery (field q "error") <> Returns true) /\
  (forall s, field q "sql" = Some (JString s) -> has_prohibited_keyword s = false) /\
  ((exists b, isProhibitedQuery (field q "sql") = Returns b) ->
   forall e, field q "error" = Some (JString e) -> has_prohibited_keyword e = false).
Proof.
  apply (getSQL_returns_no_flagged_sql
           (hosted_world (Str.quotes "Here: {'sql':'SELECT 1','error':'none'}"))
           "give me one").
  reflexivity.
Defined.

(** ** The reach of the safety filter *)

Lemma toLowerCase_append (a b : string) :
  Str.toLowerCase (a ++ b) = Str.toLowerCase a ++ Str.toLowerCase b.
Proof. induction a as [|c a IH]; simpl; [reflexivity | now rewrite IH]. Qed.

(** X7. The safety filter flags every text in which a keyword occurs in
    any capitalisation, also inside a longer word, and every text that
    contains a flagged text. *)
Theorem isProhibitedQuery_flags_any_occurrence :
  (forall pre word post,
     In (Str.toLowerCase word) prohibitedKeywords ->
     isProhibitedQuery (Some (JString (pre ++ word ++ post))) = Returns true) /\
  (forall pre s post,
     isProhibitedQuery (Some (JString s)) = Returns true ->
     isProhibitedQuery (Some (JString (pre ++ s ++ post))) = Returns true).
Proof.
  split.
  - intros pre word post Hin. rewrite isProhibitedQuery_string. f_equal.
    apply has_prohibited_keyword_iff.
    exists (Str.toLowerCase word), (Str.toLowerCase pre), (Str.toLowerCase post).
    split; [assumption |]. now rewrite !toLowerCase_append.
  - intros pre s post. rewrite !isProhibitedQuery_string. intros H.
    inversion H as [Hs]. f_equal. rewrite Hs.
    apply has_prohibited_keyword_iff in Hs as (k & a & b & Hin & Hk).
    apply has_prohibited_keyword_iff.
    exists k, (Str.toLowerCase pre ++ a), (b ++ Str.toLowerCase post).
    split; [assumption |].
    rewrite !toLowerCase_append, Hk. now rewrite !append_assoc.
Qed.

Lemma isProhibitedQuery_flags_any_occurrence_witness :
  isProhibitedQuery (Some (JString ("SELECT " ++ "Create" ++ "d_at FROM orders")))
  = Returns true /\
  isProhibitedQuery (Some (JString ("-- " ++ "drop it" ++ " --"))) = Returns true.
Proof.
  destruct isProhibitedQuery_flags_any_occurrence as [Hword Htext]. split.
  - apply Hword. unfold prohibitedKeywords. simpl. tauto.
  - apply Htext. reflexivity.
Defined.

(** ** The names of a parsed object *)

Lemma lookup_name (o : props wide) (k : string) :
  Obj.lookup o (Name k) = Obj.get o k.
Proof.
  induction o as [|[k' v'] o IH]; simpl; [reflexivity |].
  now rewrite name_eqb_name, IH.
Qed.

Lemma property_name (q : parsed) (k : string) : property q (Name k) = field q k.
Proof. destruct q; try reflexivity. apply lookup_name. Qed.

Lemma name_eqb_refl (k : name wide) : Obj.name_eqb k k = true.
Proof. now apply name_eqb_eq. Qed.

Lemma name_eqb_neq (a b : name wide) : a <> b -> Obj.name_eqb a b = false.
Proof.
  intros H. destruct (Obj.name_eqb a b) eqn:E; [| reflexivity].
  now apply name_eqb_eq in E.
Qed.

Lemma lookup_define_same (o : props wide) (k : name wide) (v : parsed) :
  Obj.lookup (Obj.define o k v) k = Some v.
Proof.
  induction o as [|[k' v'] o IH]; simpl.
  - now rewrite name_eqb_refl.
  - destruct (Obj.name_eqb k' k) eqn:E; simpl; now rewrite E.
Qed.

Lemma lookup_define_other (o : props wide) (k k' : name wide) (v : parsed) :
  k <> k' -> Obj.lookup (Obj.define o k v) k' = Obj.lookup o k'.
Proof.
  intros Hk. induction o as [|[k0 v0] o IH]; simpl.
  - now rewrite (name_eqb_neq Hk).
  - destruct (Obj.name_eqb k0 k) eqn:E; simpl.
    + apply name_eqb_eq in E as ->. now rewrite (name_eqb_neq Hk).
    + now rewrite IH.
Qed.

Lemma define_names (o : props wide) (k : name wide) (v : parsed) (x : name wide) :
  In x (map fst (Obj.define o k v)) <-> In x (map fst o) \/ x = k.
Proof.
  induction o as [|[k' v'] o IH]; simpl.
  - intuition.
  - destruct (Obj.name_eqb k' k) eqn:E; simpl.
    + apply name_eqb_eq in E as ->. intuition.
    + rewrite IH. intuition.
Qed.

Lemma define_unique (o : props wide) (k : name wide) (v : parsed) :
  NoDup (map fst o) -> NoDup (map fst (Obj.define o k v)).
Proof.
  induction o as [|[k' v'] o IH]; simpl; intros Hnd.
  - constructor; [intros [] | constructor].
  - inversion Hnd as [|? ? Hnotin Hnd']; subst.
    destruct (Obj.name_eqb k' k) eqn:E; simpl.
    + now constructor.
    + constructor; [| now apply IH].
      rewrite define_names. intros [H | ->]; [tauto |].
      now rewrite name_eqb_refl in E.
Qed.

Lemma parse_members_unique (fuel : nat) :
  forall acc s o rest,
    NoDup (map fst acc) ->
    JSON.parse_members fuel acc s = Some (JObject o, rest) ->
    NoDup (map fst o).
Proof.
  induction fuel as [|n IH]; intros acc s o rest Hnd; [discriminate |].
  cbn [JSON.parse_members].
  destruct (JSON.skip_ws s) as [|c r]; [discriminate |].
  destruct (Ascii.eqb c JSON.dquote); [| discriminate].
  destruct (JSON.parse_chars r) as [[key r1]|]; [| discriminate].
  destruct (JSON.skip_ws r1) as [|c2 r2]; [discriminate |].
  destruct (Ascii.eqb c2 ":"); [| discriminate].
  destruct (JSON.parse_value n r2) as [[v' r3]|]; [| discriminate].
  destruct (JSON.skip_ws r3) as [|c4 r4]; [discriminate |].
  destruct (Ascii.eqb c4 ",").
  - apply IH. now apply define_unique.
  - destruct (Ascii.eqb c4 rbrace); [| discriminate].
    intros H; inversion H; subst. now apply define_unique.
Qed.

(** A parsed reply has each of its names once. *)
Lemma JSON_parse_unique (results : string) (o : props wide) :
  looks_like_object results = true -> JSON.parse results = Some (JObject o) ->
  NoDup (map fst o).
Proof.
  intros H. apply looks_like_object_brace in H as [r ->].
  unfold JSON.parse.
  destruct (JSON.parse_value _ _) as [[v' rest]|] eqn:Hp; [| discriminate].
  destruct (Str.is_empty _); [| discriminate].
  intros Hv; inversion Hv; subst. revert Hp.
  generalize (2 * String.length (String lbrace r) + 2). intros fuel.
  destruct fuel as [|n]; [discriminate |].
  cbn [JSON.parse_value].
  change (JSON.skip_ws (String lbrace r)) with (String lbrace r).
  change (Ascii.eqb lbrace lbrace) with true. cbv iota.
  destruct (JSON.skip_ws r) as [|d r']; [discriminate |].
  destruct (Ascii.eqb d rbrace).
  - intros H; inversion H; subst. constructor.
  - apply parse_members_unique. constructor.
Qed.

Lemma lookup_assign_absent (src : props wide) (k : name wide) :
  ~ In k (map fst src) ->
  forall base, Obj.lookup (Obj.assign base src) k = Obj.lookup base k.
Proof.
  unfold Obj.assign.
  induction src as [|[k1 v1] src IH]; intros Hnotin base; [reflexivity |].
  simpl in *. rewrite IH by tauto.
  apply lookup_define_other. intros ->. tauto.
Qed.

(** A spread writes every property of its source over the target. *)
Lemma lookup_assign_present (src : props wide) (k : name wide) (x : parsed) :
  NoDup (map fst src) -> Obj.lookup src k = Some x ->
  forall base, Obj.lookup (Obj.assign base src) k = Some x.
Proof.
  induction src as [|[k1 v1] src IH]; intros Hnd Hget base; [discriminate |].
  simpl in Hnd, Hget. inversion Hnd as [|? ? Hnotin Hnd']; subst.
  change (Obj.assign base ((k1, v1) :: src))
    with (Obj.assign (Obj.define base k1 v1) src).
  destruct (Obj.name_eqb k1 k) eqn:E.
  - apply name_eqb_eq in E as ->. inversion Hget; subst.
    rewrite (@lookup_assign_absent src k Hnotin). apply lookup_define_same.
  - now apply IH.
Qed.

(** X8. From a reply that parses, [completeEmailSMSMessages] returns an
    object that has [status] true and every field of the reply other than
    [status] with the value the model wrote, whatever the name of the field
    and the value are. *)
Theorem completeEmailSMSMessages_keeps_reply_fields :
  forall w prompt company contactName results v,
    message_completion w prompt contactName (Returns results) ->
    looks_like_object results = true -> JSON.parse results = Some v ->
    exists q,
      result (completeEmailSMSMessages w prompt company contactName) = Returns q /\
      field q "status" = Some (JBool true) /\
      (forall k x, k <> Name "status" -> property v k = Some x -> property q k = Some x) /\
      (forall k x, k <> "status" -> field v k = Some x -> field q k = Some x).
Proof.
  intros w prompt company contactName results v Hcall Hlooks Hparse.
  destruct (JSON_parse_object _ Hlooks Hparse) as [o ->].
  rewrite (completeEmailSMSMessages_result company Hcall),
    (message_parse_object _ Hlooks Hparse).
  eexists. split; [reflexivity |]. cbn [fst field].
  assert (Hnames : forall k x, k <> Name "status" ->
            property (JObject o) k = Some x ->
            property (JObject (Obj.set (Obj.assign [("content", JObject default_content)] o)
                                       "status" (JBool true))) k = Some x).
  { intros k x Hk Hget. cbn [property] in *.
    rewrite <- define_name, lookup_define_other by congruence.
    apply lookup_assign_present; [| assumption].
    now apply (JSON_parse_unique _ Hlooks Hparse). }
  split; [apply get_set_same |]. split; [exact Hnames |].
  intros k x Hk Hget.
  specialize (Hnames (Name k) x). rewrite !property_name in Hnames.
  apply Hnames; [congruence | exact Hget].
Qed.

Lemma completeEmailSMSMessages_keeps_reply_fields_witness :
  let v : parsed := JObject [("emailSubject", JString "Hi"); ("sms", JString "Yo");
                             ("status", JBool false)] in
  exists q,
    result (completeEmailSMSMessages
              (hosted_world (Str.quotes "{'emailSubject':'Hi','sms':'Yo','status':false}"))
              "Order shipped" "Adatum" "Ana") = Returns q /\
    field q "status" = Some (JBool true) /\
    (forall k x, k <> Name "status" -> property v k = Some x -> property q k = Some x) /\
    (forall k x, k <> "status" -> field v k = Some x -> field q k = Some x).
Proof.
  apply (@completeEmailSMSMessages_keeps_reply_fields
           (hosted_world (Str.quotes "{'emailSubject':'Hi','sms':'Yo','status':false}"))
           "Order shipped" "Adatum" "Ana"
           (Str.quotes "{'emailSubject':'Hi','sms':'Yo','status':false}"));
    reflexivity.
Defined.

(** ** The completion call when the service answers *)

Lemma callOpenAI_answered (w : World) (completion : body)
      (systemPrompt userPrompt : string) (t : QArith_base.Q) :
  answers w completion ->
  result (callOpenAI w systemPrompt userPrompt t)
  = match response_content completion with
    | Returns content =>
        Returns (if isAzureOpenAI w
                 then (if has_both_braces content then extractJson content else content)
                 else extractJson content)
    | Throws e => Throws e
    end.
Proof.
  unfold answers. destruct (isAzureOpenAI w) eqn:Hazure.
  - intros Hfetch.
    destruct (response_content completion) as [content | e] eqn:Hc.
    + now apply getAzureOpenAICompletion_returns with (completion := completion).
    + destruct (isAzureOpenAI_true w Hazure) as (Hk & He & Hm).
      unfold callOpenAI. rewrite Hazure.
      unfold getAzureOpenAICompletion. rewrite Hk, He, Hm. cbn [negb orb].
      rewrite Hfetch. unfold lift, bind, try_catch.
      unfold response_content in Hc. now rewrite Hc.
  - intros [Hk Hcreate].
    destruct (response_content completion) as [content | e] eqn:Hc.
    + now apply getOpenAICompletion_returns with (data := completion).
    + unfold callOpenAI. rewrite Hazure.
      unfold getOpenAICompletion. rewrite Hk. cbn [negb].
      rewrite Hcreate. unfold lift, bind, try_catch.
      unfold response_content in Hc. now rewrite Hc.
Qed.

Lemma getSQL_parse_empty :
  getSQL_parse (JObject default_queryData) "" = (JObject default_queryData, None).
Proof. reflexivity. Qed.

Lemma message_parse_empty :
  completeEmailSMSMessages_parse (JObject default_content) ""
  = (JObject default_content, None).
Proof. reflexivity. Qed.

(** X9. A response that carries no content leaves both flows at their
    default results: a body without [choices] (the client throws on it),
    an empty [choices] list, a first choice without [message], a message
    without [content] or with [null] content, and content that is only
    white space. *)
Theorem flows_default_without_content :
  (forall w completion,
     answers w completion ->
     response_content completion = Returns "" \/
     (exists e, response_content completion = Throws e) ->
     (forall prompt company contactName,
        result (completeEmailSMSMessages w prompt company contactName)
        = Returns (JObject default_content)) /\
     (forall userPrompt dbSchema,
        readFile w "db.schema" = Returns dbSchema ->
        result (getSQL w userPrompt) = Returns (JObject default_queryData))) /\
  (forall o, Obj.get o "choices" = undefined ->
             exists e, response_content (JObject o) = Throws e) /\
  (forall o, Obj.get o "choices" = Some (JArray []) ->
             response_content (JObject o) = Returns "") /\
  (forall o c rest,
     Obj.get o "choices" = Some (JArray (JObject c :: rest)) ->
     nullish (Obj.get c "message") = true ->
     response_content (JObject o) = Returns "") /\
  (forall o c rest m,
     Obj.get o "choices" = Some (JArray (JObject c :: rest)) ->
     Obj.get c "message" = Some (JObject m) ->
     nullish (Obj.get m "content") = true ->
     response_content (JObject o) = Returns "") /\
  (forall o c rest m t,
     Obj.get o "choices" = Some (JArray (JObject c :: rest)) ->
     Obj.get c "message" = Some (JObject m) ->
     Obj.get m "content" = Some (JString t) ->
     response_content (JObject o) = Returns (Str.trim t)).
Proof.
  split; [| split; [| split; [| split; [| split]]]].
  - intros w completion Hanswers Hcontent.
    assert (Hcall : forall s u t,
              result (callOpenAI w s u t) = Returns "" \/
              exists e, result (callOpenAI w s u t) = Throws e).
    { intros s u t. rewrite (@callOpenAI_answered w completion s u t Hanswers).
      destruct Hcontent as [-> | [e ->]]; [left | right; eauto].
      now destruct (isAzureOpenAI w). }
    split.
    + intros prompt company contactName.
      rewrite (@completeEmailSMSMessages_result w prompt company contactName _ eq_refl).
      destruct (Hcall message_system_prompt (message_user_prompt prompt contactName)
                      message_temperature) as [-> | [e ->]]; reflexivity.
    + intros userPrompt dbSchema Hread.
      assert (Hsql : sql_completion w userPrompt
                (result (callOpenAI w (sql_system_prompt dbSchema) userPrompt
                                    default_temperature)))
        by (exists dbSchema; auto).
      rewrite (getSQL_result Hsql).
      destruct (Hcall (sql_system_prompt dbSchema) userPrompt default_temperature)
        as [-> | [e ->]]; reflexivity.
  - intros o Hc. unfold response_content. cbn [member obind]. rewrite Hc.
    eexists. reflexivity.
  - intros o Hc. unfold response_content. cbn [member obind]. now rewrite Hc.
  - intros o c rest Hc Hm. unfold response_content. cbn [member obind]. rewrite Hc.
    unfold first_choice_content. cbn [member index_of String.eqb Ascii.eqb Bool.eqb
                                       nth_error obind opt_member nullish].
    cbn [member]. unfold opt_member at 1. rewrite Hm.
    destruct (Obj.get c "message") as [[| | | |[]| |]|]; try discriminate; reflexivity.
  - intros o c rest m Hc Hm Hn. unfold response_content. cbn [member obind]. rewrite Hc.
    unfold first_choice_content. cbn. rewrite Hm. cbn.
    destruct (Obj.get m "content") as [[| | | |[]| |]|]; try discriminate; reflexivity.
  - intros o c rest m t Hc Hm Ht. unfold response_content. cbn [member obind]. rewrite Hc.
    unfold first_choice_content. cbn. rewrite Hm. cbn. rewrite Ht. reflexivity.
Qed.

Lemma flows_default_without_content_witness :
  result (completeEmailSMSMessages
            (hosted_world_answering (JObject [("choices", JArray [])]))
            "Order shipped" "Adatum" "Ana")
  = Returns (JObject default_content) /\
  result (getSQL (hosted_world_answering (JObject [("choices", JArray [])]))
                 "list the customers")
  = Returns (JObject default_queryData).
Proof.
  assert (Hanswers : answers (hosted_world_answering (JObject [("choices", JArray [])]))
                             (JObject [("choices", JArray [])]))
    by (intros url key request; reflexivity).
  destruct (proj1 flows_default_without_content _ _ Hanswers (or_introl eq_refl))
    as [Hmsg Hsql].
  split; [apply Hmsg | apply (Hsql "list the customers" schema); reflexivity].
Defined.

(** ** What the flows depend on *)

Lemma same_service_callOpenAI (t : QArith_base.Q) (w w' : World)
      (systemPrompt userPrompt : string) :
  same_service t w w' ->
  callOpenAI w systemPrompt userPrompt t = callOpenAI w' systemPrompt userPrompt t.
Proof.
  intros (Hk & He & Hm & Hv & Hfetch & Hcreate).
  assert (Hazure : isAzureOpenAI w' = isAzureOpenAI w)
    by (unfold isAzureOpenAI; now rewrite Hk, He, Hm).
  unfold callOpenAI. rewrite Hazure.
  destruct (isAzureOpenAI w) eqn:Hw.
  - unfold getAzureOpenAICompletion. rewrite <- Hk, <- He, <- Hm, <- Hv.
    rewrite <- (Hfetch eq_refl); [reflexivity |].
    repeat split. now exists systemPrompt, userPrompt.
  - unfold getOpenAICompletion. rewrite <- Hk.
    rewrite <- (Hcreate eq_refl); [reflexivity |].
    repeat split. now exists systemPrompt, userPrompt.
Qed.

(** X10. The flows depend on the world only through the four environment
    variables, the file [db.schema] ([getSQL] alone) and the answers of the
    selected backend to requests made with the configured key (at the
    deployment address, for the hosted backend), with 1024 tokens at most,
    a system message followed by a user message, and temperature 0 for
    [getSQL], 0.5 for [completeEmailSMSMessages]: [getSQL] reads no other
    file, [completeEmailSMSMessages] reads no file at all, and neither
    calls the backend that is not selected or sends another request. *)
Theorem flows_depend_on_fixed_requests :
  (forall w w' userPrompt,
     same_service default_temperature w w' ->
     readFile w "db.schema" = readFile w' "db.schema" ->
     getSQL w userPrompt = getSQL w' userPrompt) /\
  (forall w w' prompt company contactName,
     same_service message_temperature w w' ->
     completeEmailSMSMessages w prompt company contactName
     = completeEmailSMSMessages w' prompt company contactName).
Proof.
  split.
  - intros w w' userPrompt Hsame Hread.
    unfold getSQL. rewrite <- Hread.
    destruct (readFile w "db.schema") as [dbSchema | e]; [| reflexivity].
    unfold lift, bind.
    now rewrite (same_service_callOpenAI (sql_system_prompt dbSchema) userPrompt Hsame).
  - intros w w' prompt company contactName Hsame.
    unfold completeEmailSMSMessages.
    now rewrite (same_service_callOpenAI message_system_prompt
                   (message_user_prompt prompt contactName) Hsame).
Qed.

Lemma other_hosted_world_same (t : QArith_base.Q) (reply : string) :
  same_service t (hosted_world reply) (other_hosted_world reply).
Proof.
  repeat split.
  - intros _ request (_ & Htokens & _).
    cbn [fetch_json hosted_world other_hosted_world OPENAI_API_KEY interpolate].
    now rewrite Htokens.
  - intros H. discriminate.
Qed.

Lemma no_schema_world_same (t : QArith_base.Q) (reply : string) :
  same_service t (hosted_world reply) (no_schema_world reply).
Proof. repeat split. Qed.

Lemma flows_depend_on_fixed_requests_witness :
  getSQL (hosted_world "SELECT 1") "give me one"
  = getSQL (other_hosted_world "SELECT 1") "give me one" /\
  completeEmailSMSMessages (hosted_world "Hello") "Order shipped" "Adatum" "Ana"
  = completeEmailSMSMessages (no_schema_world "Hello") "Order shipped" "Adatum" "Ana".
Proof.
  destruct flows_depend_on_fixed_requests as [Hsql Hmsg]. split.
  - apply Hsql; [apply other_hosted_world_same | reflexivity].
  - apply Hmsg. apply no_schema_world_same.
Defined.

(** ** The two backends compared *)

Lemma extractJson_without_braces (content : string) :
  has_both_braces content = false -> extractJson content = "".
Proof.
  intros Hboth.
  destruct (extractJson_cases content)
    as [(m & (pre & post & Hc & Hobj & _) & _) | [_ H]]; [| exact H].
  destruct (object_has_braces pre post Hobj) as [Hl Hr]. rewrite <- Hc in Hl, Hr.
  unfold has_both_braces in Hboth. rewrite Hl, Hr in Hboth.
  destruct content; [| discriminate].
  destruct pre; discriminate.
Qed.

(** X11. When a hosted and a direct configuration receive the same
    response, their completion calls return the same text exactly when the
    trimmed content holds both braces or is empty; on other content the
    hosted call returns the content and the direct call the empty string. *)
Theorem backends_agree_on_braced_content :
  forall w w' completion content systemPrompt userPrompt t,
    isAzureOpenAI w = true -> isAzureOpenAI w' = false ->
    answers w completion -> answers w' completion ->
    response_content completion = Returns content ->
    (result (callOpenAI w systemPrompt userPrompt t)
     = result (callOpenAI w' systemPrompt userPrompt t)
     <-> has_both_braces content = true \/ content = "") /\
    (has_both_braces content = false ->
     result (callOpenAI w systemPrompt userPrompt t) = Returns content /\
     result (callOpenAI w' systemPrompt userPrompt t) = Returns "").
Proof.
  intros w w' completion content systemPrompt userPrompt t
         Hw Hw' Hanswers Hanswers' Hcontent.
  rewrite (@callOpenAI_answered w completion systemPrompt userPrompt t Hanswers),
    (@callOpenAI_answered w' completion systemPrompt userPrompt t Hanswers').
  rewrite Hcontent, Hw, Hw'.
  destruct (has_both_braces content) eqn:Hboth.
  - split; [| discriminate]. split; auto.
  - rewrite (extractJson_without_braces _ Hboth). split; [| auto].
    split.
    + intros H. inversion H. now right.
    + intros [H | ->]; [discriminate | reflexivity].
Qed.

Lemma backends_agree_on_braced_content_witness :
  result (callOpenAI (hosted_world "Sure: {a:1}") "system" "user" default_temperature)
  = result (callOpenAI (direct_world "Sure: {a:1}") "system" "user" default_temperature).
Proof.
  apply (@backends_agree_on_braced_content
           (hosted_world "Sure: {a:1}") (direct_world "Sure: {a:1}")
           (completion_of "Sure: {a:1}") "Sure: {a:1}" "system" "user"
           default_temperature).
  - reflexivity.
  - reflexivity.
  - intros url key request. reflexivity.
  - split; [reflexivity | intros key request; reflexivity].
  - reflexivity.
  - left. reflexivity.
Defined.
